(** * simple-ts-setup: the client utilities [sum] and [shift], the client
      bootstrap script and the page server, embedded from the TypeScript
      sources and checked against the written specification. *)

From Stdlib Require Import ZArith List String Ascii Bool Lia Permutation.
From Stdlib Require Import Floats.SpecFloat.
Import ListNotations.

Local Open Scope Z_scope.

(** ** ECMAScript numbers

    A TypeScript [number] is an IEEE 754 binary64 value.  The Standard
    Library's [spec_float] is the executable specification of that format
    (one NaN, signed zeros and infinities, finite values [m * 2^e]); the
    [+] operator of the language is [SFadd] at precision 53 with round to
    nearest, ties to even. *)
Module JSNumber.

Definition prec : Z := 53.
Definition emax : Z := 1024.

Definition number : Type := spec_float.

Definition NaN : number := S754_nan.
Definition pos_zero : number := S754_zero false.
Definition neg_zero : number := S754_zero true.

(** [a + b] on numbers. *)
Definition add (a b : number) : number := SFadd prec emax a b.

(** The value of an integer literal: the nearest binary64 value. *)
Definition of_Z (z : Z) : number := binary_normalize prec emax z 0 false.

(** [a === b] on numbers: NaN differs from everything, the zeros are equal. *)
Definition strict_eq (a b : number) : bool := SFeqb a b.

(** The values a program can hold: [spec_float] terms in canonical form. *)
Definition representable (a : number) : Prop := valid_binary prec emax a = true.

(** [Number.MAX_SAFE_INTEGER], 2^53 - 1. *)
Definition MAX_SAFE_INTEGER : Z := 9007199254740991.

(** The integer part of a number, rounded towards zero; NaN, the zeros
    and the infinities give 0, as in the abstract operation ToUint16. *)
Definition truncate (x : number) : Z :=
  match x with
  | S754_finite s m (Zneg k) => cond_Zopp s (Zpos m / 2 ^ Zpos k)
  | S754_finite s m e => cond_Zopp s (Zpos m * 2 ^ e)
  | _ => 0
  end.

(** [ToUint16(x)]: the integer part of [x] modulo 2^16. *)
Definition ToUint16 (x : number) : Z := truncate x mod 65536.

(** Proof devices: [shl q k] is [q * 2^k] on mantissas, and [canon s q]
    is the binary64 representation of the integer [+-q] below 2^53. *)
Definition shl (q : positive) (k : nat) : positive := Nat.iter k xO q.

Definition canon (s : bool) (q : positive) : number :=
  S754_finite s (shl q (Z.to_nat (53 - Zpos (digits2_pos q))))
              (Zpos (digits2_pos q) - 53).

(** The exponent of a finite number is at least that of the smallest
    subnormal, as it is for every representable number. *)
Definition exponent_bounded (x : number) : Prop :=
  match x with
  | S754_finite _ _ e => -1074 <= e
  | _ => True
  end.

End JSNumber.

(** ** Arrays

    [Array.prototype.reduce(callbackfn, initialValue)] as ECMAScript defines
    it: with [len] the length of the array, the index [k] runs from 0 to
    [len - 1]; at each index that is present the accumulator becomes
    [callbackfn(accumulator, arr[k], k, arr)].  Arrays built from rest
    parameters and literals have every index present. *)
Module JSArray.

Section Reduce.
Context {A B : Type}.
Variable callbackfn : B -> A -> nat -> list A -> B.
Variable arr : list A.

(** [n] indices remain, [k] is the current one. *)
Fixpoint reduce_from (n k : nat) (accumulator : B) : B :=
  match n with
  | O => accumulator
  | S n' =>
      match nth_error arr k with
      | Some kValue => reduce_from n' (S k) (callbackfn accumulator kValue k arr)
      | None => reduce_from n' (S k) accumulator
      end
  end.

Definition reduce (initialValue : B) : B :=
  reduce_from (List.length arr) 0%nat initialValue.
End Reduce.

(** [Array.prototype.map]: a new array of the callback's results, in order. *)
Definition map {A B : Type} (callbackfn : A -> B) (arr : list A) : list B :=
  List.map callbackfn arr.

End JSArray.

(** ** Strings

    An ECMAScript string is a sequence of 16-bit code units. *)
Module JSString.
Import JSNumber.

Definition code_unit : Type := Z.
Definition js_string : Type := list code_unit.

Definition is_code_unit (u : Z) : Prop := 0 <= u < 65536.
Definition well_formed (s : js_string) : Prop := Forall is_code_unit s.

(** Leading (high) surrogates are 0xD800..0xDBFF, trailing (low)
    surrogates 0xDC00..0xDFFF. *)
Definition is_leading_surrogate (u : code_unit) : bool :=
  (55296 <=? u) && (u <=? 56319).
Definition is_trailing_surrogate (u : code_unit) : bool :=
  (56320 <=? u) && (u <=? 57343).
Definition is_surrogate (u : code_unit) : bool :=
  (55296 <=? u) && (u <=? 57343).

(** The string iterator, which the spread [[...str]] runs to the end:
    at each position [CodePointAt] takes a leading surrogate followed
    by a trailing one as one two-unit string, any other code unit as a
    one-unit string. *)
Fixpoint spread (str : js_string) : list js_string :=
  match str with
  | [] => []
  | first :: rest =>
      match rest with
      | second :: rest' =>
          if is_leading_surrogate first && is_trailing_surrogate second
          then [first; second] :: spread rest'
          else [first] :: spread rest
      | [] => [[first]]
      end
  end.

(** [String.prototype.charCodeAt(pos)]: the code unit at [pos] as a
    number, NaN when [pos] is out of range. *)
Definition charCodeAt (s : js_string) (pos : nat) : number :=
  match nth_error s pos with
  | Some u => of_Z u
  | None => NaN
  end.

(** [String.fromCharCode(c)]: the one-unit string of [ToUint16(c)]. *)
Definition fromCharCode (c : number) : js_string := [ToUint16 c].

(** [Array.prototype.join(separator)] on an array of strings. *)
Fixpoint join (separator : js_string) (arr : list js_string) : js_string :=
  match arr with
  | [] => []
  | [e] => e
  | e :: rest => e ++ separator ++ join separator rest
  end.

(** [String.prototype.codePointAt(0)] of an iterated character: the
    code point a surrogate pair encodes, else the code unit itself. *)
Definition code_point (ch : js_string) : Z :=
  match ch with
  | [hi; lo] =>
      if is_leading_surrogate hi && is_trailing_surrogate lo
      then 65536 + (hi - 55296) * 1024 + (lo - 56320)
      else hi
  | u :: _ => u
  | [] => 0
  end.

Definition code_points (s : js_string) : list Z := List.map code_point (spread s).

(** The first code unit of an iterated character. *)
Definition first_unit (ch : js_string) : code_unit := hd 0 ch.

(** Length in characters as the iterator counts them: Unicode scalar
    values when [s] has no unpaired surrogate. *)
Definition scalar_length (s : js_string) : nat := List.length (spread s).

(** No unpaired surrogate: every iterated character is a scalar value. *)
Definition is_scalar_char (ch : js_string) : bool :=
  match ch with
  | [u] => negb (is_surrogate u)
  | _ => true
  end.
Definition well_formed_utf16 (s : js_string) : bool :=
  forallb is_scalar_char (spread s).

(** A character of the basic multilingual plane other than U+FFFF. *)
Definition is_bmp_scalar_below_last (u : code_unit) : Prop :=
  0 <= u < 55296 \/ 57344 <= u < 65535.

(** The code units of an ASCII literal. *)
Fixpoint literal (s : string) : js_string :=
  match s with
  | EmptyString => []
  | String c rest => Z.of_N (N_of_ascii c) :: literal rest
  end.

(** The number of surrogate pairs the iterator finds in a string. *)
Definition surrogate_pairs (s : js_string) : nat :=
  List.length (filter (fun ch => (2 <=? List.length ch)%nat) (spread s)).

(** A leading surrogate ends [s] and a trailing surrogate starts [t]:
    joined, the two form a pair that neither string has. *)
Definition seam_pair (s t : js_string) : bool :=
  is_leading_surrogate (last s 0) && is_trailing_surrogate (hd 0 t).

End JSString.

(** ** src/client/sum.ts: [sum] *)
Module Sum.
Import JSNumber.

(** [export function sum(...args: number[]): number {
       return args.reduce((a: number, b: number) => a + b, 0); }] *)
Definition sum (args : list number) : number :=
  JSArray.reduce (fun (a : number) (b : number) (_ : nat) (_ : list number) => add a b)
                 args (of_Z 0).

(** The specification's wording of [sum]: a full left-to-right fold of
    addition over the sequence, starting from 0. *)
Definition sum_left_fold (args : list number) : number :=
  fold_left add args pos_zero.

(** The exact total of a sequence of integers, and the total of their
    magnitudes. *)
Definition integer_total (zs : list Z) : Z := fold_right Z.add 0 zs.

Definition total_magnitude (zs : list Z) : Z :=
  fold_right (fun z t => Z.abs z + t) 0 zs.

End Sum.

(** ** src/client/sum.ts: [shift] *)
Module Shift.
Import JSNumber JSString.

(** The arrow function [(e: string) => String.fromCharCode(e.charCodeAt(0) + 1)]. *)
Definition shift_char (e : js_string) : js_string :=
  fromCharCode (add (charCodeAt e 0) (of_Z 1)).

(** [export function shift(str: string): string {
       return [...str].map((e: string) => String.fromCharCode(e.charCodeAt(0) + 1)).join(""); }] *)
Definition shift (str : js_string) : js_string :=
  join (literal "") (JSArray.map shift_char (spread str)).

End Shift.

(** ** The page: a DOM tree and the jQuery calls of the client script *)
Module DOM.
Import JSString.

#[local] Set Warnings "-register-all".

Inductive node : Type :=
| Element (tagName : string) (id : option string) (childNodes : list node)
| Text (data : js_string).

Definition has_id (i : string) (id : option string) : bool :=
  match id with
  | Some j => String.eqb i j
  | None => false
  end.

(** [document.getElementById(i)]: the first element in tree order whose
    id is [i]. *)
Fixpoint getElementById (i : string) (n : node) : option node :=
  match n with
  | Text _ => None
  | Element _ id cs =>
      if has_id i id then Some n
      else
        (fix first (l : list node) : option node :=
           match l with
           | [] => None
           | c :: rest =>
               match getElementById i c with
               | Some e => Some e
               | None => first rest
               end
           end) cs
  end.

(** [$("<p>")]: a new element outside the document. *)
Definition create (tagName : string) : node := Element tagName None [].

(** [.text(s)]: the element's children are replaced by the text [s]
    (by nothing when [s] is empty). *)
Definition text (s : js_string) (n : node) : node :=
  match n with
  | Element tag id _ => Element tag id (match s with [] => [] | _ => [Text s] end)
  | Text _ => n
  end.

(** [$("#i").append(content)] inside the subtree [n]: [content] becomes
    the last child of the first element whose id is [i]; [None] when
    the subtree has no such element. *)
Fixpoint append_in (i : string) (content : node) (n : node) : option node :=
  match n with
  | Text _ => None
  | Element tag id cs =>
      if has_id i id then Some (Element tag id (cs ++ [content]))
      else
        match
          (fix first (l : list node) : option (list node) :=
             match l with
             | [] => None
             | c :: rest =>
                 match append_in i content c with
                 | Some c' => Some (c' :: rest)
                 | None =>
                     match first rest with
                     | Some rest' => Some (c :: rest')
                     | None => None
                     end
                 end
             end) cs
        with
        | Some cs' => Some (Element tag id cs')
        | None => None
        end
  end.

(** [$("#i").append(content)] on the document: an empty selection
    leaves the document as it is. *)
Definition append (i : string) (content : node) (document : node) : node :=
  match append_in i content document with
  | Some document' => document'
  | None => document
  end.

(** The number of elements of a tree. *)
Fixpoint count_elements (n : node) : nat :=
  match n with
  | Text _ => 0%nat
  | Element _ _ cs =>
      S ((fix total (l : list node) : nat :=
            match l with
            | [] => 0%nat
            | c :: rest => (count_elements c + total rest)%nat
            end) cs)
  end.

(** The searches over a list of children, as the functions above run
    them. *)
Definition first_by_id (i : string) : list node -> option node :=
  fix first (l : list node) : option node :=
    match l with
    | [] => None
    | c :: rest =>
        match getElementById i c with
        | Some e => Some e
        | None => first rest
        end
    end.

Definition append_in_first (i : string) (content : node)
  : list node -> option (list node) :=
  fix first (l : list node) : option (list node) :=
    match l with
    | [] => None
    | c :: rest =>
        match append_in i content c with
        | Some c' => Some (c' :: rest)
        | None =>
            match first rest with
            | Some rest' => Some (c :: rest')
            | None => None
            end
        end
    end.

Definition count_all : list node -> nat :=
  fix total (l : list node) : nat :=
    match l with
    | [] => 0%nat
    | c :: rest => (count_elements c + total rest)%nat
    end.

(** What one [append] does to a subtree: nothing when the id is absent;
    otherwise the first element with the id gains the content as its
    last child, stays the first element with the id, and the number of
    elements grows by those of the content. *)
Definition append_in_correct (i : string) (content : node) (n : node) : Prop :=
  (getElementById i n = None -> append_in i content n = None)
  /\ (forall tag id cs,
        getElementById i n = Some (Element tag id cs) ->
        exists n',
          append_in i content n = Some n'
          /\ getElementById i n' = Some (Element tag id (cs ++ [content]))
          /\ count_elements n' = (count_elements n + count_elements content)%nat).

(** What identifies an element to a lookup: its tag and its id. *)
Definition label (n : node) : option (string * option string) :=
  match n with
  | Element tag id _ => Some (tag, id)
  | Text _ => None
  end.

(** An [append] into a subtree leaves the lookup of [j] in it at an
    element of the same tag and id, or absent as before. *)
Definition lookup_kept (i j : string) (content n : node) : Prop :=
  forall n', append_in i content n = Some n' ->
    option_map label (getElementById j n') = option_map label (getElementById j n).

End DOM.

(** ** src/client/index.ts: the client bootstrap *)
Module Client.
Import JSNumber JSString DOM.

Section Bootstrap.
(** [Number::toString], used by the template literal and by
    [numArr.join]: the decimal text of a number. *)
Variable number_to_string : number -> js_string.

Definition shiftText : js_string := literal "Hello, World!".

Definition numArr : list number :=
  List.map of_Z [12; 24; 5; 7; 8; 9; 5; 4; 345; 6; 7; 2; 1; 89381759823749183247].

Definition quote : js_string := [34].

(** [`${shiftText} shifts to ${shift(shiftText)}`] *)
Definition shiftMessage : js_string :=
  shiftText ++ literal " shifts to " ++ Shift.shift shiftText.

(** [`The sum of "${numArr.join(" + ")}" is ${sum(...numArr)}`] *)
Definition sumMessage : js_string :=
  literal "The sum of " ++ quote
    ++ join (literal " + ") (List.map number_to_string numArr)
    ++ quote ++ literal " is " ++ number_to_string (Sum.sum numArr).

Definition shiftElement : node := text shiftMessage (create "p").
Definition sumElement : node := text sumMessage (create "p").

(** The script, statement by statement, on the document it runs in. *)
Definition bootstrap (document : node) : node :=
  let document := append "app" shiftElement document in
  let document := append "app" sumElement document in
  document.
End Bootstrap.


End Client.

(** ** The page server (src/server/index.ts)

    The Express application: a stack of layers tried in the order of
    registration.  A layer that does not match, or whose handler calls
    [next()], passes the request on; a request no layer answers gets the
    framework's 404.  Paths are lists of decoded segments: [/a/b] is
    [["a"; "b"]], a trailing slash is a last empty segment.  The log
    line of [morgan] and the listening socket are outside the model. *)
Module Express.

Inductive method : Type := GET | HEAD | POST | PUT | DELETE | PATCH | OPTIONS.

Record Request : Type := {
  req_method : method;
  originalUrl : list string;
  url : list string
}.

Inductive entry : Type :=
| File (content : list Byte.byte)
| Directory.

Definition locals : Type := list (string * string).

(** What the server runs on: the files below [__dirname], the template
    engine ([ejs.renderFile] on a template's text) and the table of
    content types by file name. *)
Record environment : Type := {
  fs : list string -> option entry;
  engine : list Byte.byte -> locals -> option (list Byte.byte);
  mime : string -> string
}.

(** The responses of the application: a file sent by the static
    middleware, its redirect of a directory, a rendered view, the
    router's automatic answer to OPTIONS, and the framework's pages for
    an unanswered request (404) and for an error (500). *)
Inductive Response : Type :=
| SendFile (path : list string) (content : list Byte.byte)
| Redirect (location : list string)
| Rendered (view : string) (options : locals) (html : list Byte.byte)
| Allowed (methods : list method)
| NotFound
| ServerError.

Definition status (r : Response) : Z :=
  match r with
  | SendFile _ _ => 200
  | Redirect _ => 301
  | Rendered _ _ _ => 200
  | Allowed _ => 200
  | NotFound => 404
  | ServerError => 500
  end.

(** The media type of the response (its charset parameter aside): a
    file's by its name; every other answer is sent as HTML. *)
Definition content_type (env : environment) (r : Response) : string :=
  match r with
  | SendFile path _ => mime env (last path EmptyString)
  | _ => "text/html"
  end.

(** The file or the rendered document a response carries (it is not
    transmitted on a HEAD request); the framework's own pages carry
    neither. *)
Definition body (r : Response) : option (list Byte.byte) :=
  match r with
  | SendFile _ content => Some content
  | Rendered _ _ html => Some html
  | _ => None
  end.

(** A handler answers or calls [next()] ([None]). *)
Definition handler : Type := Request -> option Response.

(** A layer of the router: the path match (giving the request as the
    handler sees it), the methods of a route ([None] for middleware,
    which takes every method) and the handler. *)
Record Layer : Type := {
  matches : Request -> option Request;
  route_methods : option (list method);
  handle : handler
}.

Definition method_eqb (a b : method) : bool :=
  match a, b with
  | GET, GET | HEAD, HEAD | POST, POST | PUT, PUT
  | DELETE, DELETE | PATCH, PATCH | OPTIONS, OPTIONS => true
  | _, _ => false
  end.

Definition has_method (ms : list method) (m : method) : bool :=
  existsb (method_eqb m) ms.

(** A route takes a HEAD request as a GET when it has no HEAD handler. *)
Definition handles_method (ms : list method) (m : method) : bool :=
  match m with
  | HEAD => has_method ms HEAD || has_method ms GET
  | _ => has_method ms m
  end.

(** The methods a route advertises to an OPTIONS request. *)
Definition route_options (ms : list method) : list method :=
  if has_method ms GET && negb (has_method ms HEAD) then ms ++ [HEAD] else ms.

Definition to_lower_ascii (c : ascii) : ascii :=
  let n := N_of_ascii c in
  if ((65 <=? n) && (n <=? 90))%N then ascii_of_N (n + 32) else c.

Fixpoint to_lower (s : string) : string :=
  match s with
  | EmptyString => EmptyString
  | String c rest => String (to_lower_ascii c) (to_lower rest)
  end.

(** The segment a one-segment mount path such as [/public] names. *)
Definition mount_segment (mount : string) : string :=
  match mount with
  | String "/" seg => seg
  | _ => mount
  end.

(** Route paths match segment by segment, without regard to case. *)
Definition under_mount (mount : string) (path : list string) : option (list string) :=
  match path with
  | first :: rest =>
      if String.eqb (to_lower first) (to_lower (mount_segment mount))
      then Some rest else None
  | [] => None
  end.

(** [app.use(fn)]: every request. *)
Definition use_all (h : handler) : Layer :=
  {| matches := fun req => Some req; route_methods := None; handle := h |}.

(** [app.use("/mount", fn)]: requests below the mount path, which is
    stripped from [url]. *)
Definition use (mount : string) (h : handler) : Layer :=
  {| matches := fun req =>
       match under_mount mount (url req) with
       | Some rest =>
           Some {| req_method := req_method req;
                   originalUrl := originalUrl req;
                   url := rest |}
       | None => None
       end;
     route_methods := None;
     handle := h |}.

(** [app.get("*", fn)]: a route for GET on every path. *)
Definition get_all (h : handler) : Layer :=
  {| matches := fun req => Some req; route_methods := Some [GET]; handle := h |}.

(** The router: layers are tried in order.  A route whose path matches
    but whose methods do not is skipped, and on an OPTIONS request its
    methods are collected; when no layer answers, an OPTIONS request
    with collected methods gets them as the answer, any other request
    the 404 page. *)
Fixpoint dispatch_from (options : list method) (stack : list Layer)
         (req : Request) : Response :=
  match stack with
  | [] =>
      match req_method req, options with
      | OPTIONS, _ :: _ => Allowed options
      | _, _ => NotFound
      end
  | l :: rest =>
      match matches l req with
      | Some req' =>
          match route_methods l with
          | Some ms =>
              if handles_method ms (req_method req) then
                match handle l req' with
                | Some r => r
                | None => dispatch_from options rest req
                end
              else
                match req_method req with
                | OPTIONS => dispatch_from (options ++ route_options ms) rest req
                | _ => dispatch_from options rest req
                end
          | None =>
              match handle l req' with
              | Some r => r
              | None => dispatch_from options rest req
              end
          end
      | None => dispatch_from options rest req
      end
  end.

Definition dispatch (stack : list Layer) (req : Request) : Response :=
  dispatch_from [] stack req.

(** [morgan("dev")] writes a log line and calls [next()]. *)
Definition morgan : handler := fun _ => None.

(** Path normalisation of the static middleware: empty and [.] segments
    are dropped, [..] removes the segment before it; a path that leaves
    the root is refused ([None]). *)
Fixpoint normalize_from (stack : list string) (segs : list string) : option (list string) :=
  match segs with
  | [] => Some (rev stack)
  | seg :: rest =>
      if String.eqb seg "" then normalize_from stack rest
      else if String.eqb seg "." then normalize_from stack rest
      else if String.eqb seg ".." then
        match stack with
        | [] => None
        | _ :: stack' => normalize_from stack' rest
        end
      else normalize_from (seg :: stack) rest
  end.

Definition normalize (segs : list string) : option (list string) :=
  normalize_from [] segs.

Definition is_dotfile (part : string) : bool :=
  match part with
  | String "." (String _ _) => true
  | _ => false
  end.

Definition has_trailing_slash (path : list string) : bool :=
  match rev path with
  | last_seg :: _ => String.eqb last_seg ""
  | [] => false
  end.

Definition starts_with_dot (part : string) : bool :=
  match part with
  | String "." _ => true
  | _ => false
  end.

(** The last part of the normalised path as the middleware splits it:
    the empty part after a trailing slash, else the last segment. *)
Definition last_part (path parts : list string) : string :=
  if has_trailing_slash path then ""%string else last parts ""%string.

(** [express.static(root)] with its default options: GET and HEAD only;
    refused paths and missing files fall through to the next layer, and
    so does a path with a dotfile among its parts when its last part
    starts with a dot (no [dotfiles] option is given, so a file inside a
    dot directory is not refused); a file is sent; a directory named
    without a trailing slash is redirected to the same URL with one;
    with a trailing slash the directory's [index.html] is sent when it
    is a file. *)
Definition serve_static (root : list string) (env : environment) : handler :=
  fun req =>
    match req_method req with
    | GET | HEAD =>
        match normalize (url req) with
        | None => None
        | Some parts =>
            if existsb is_dotfile parts
               && starts_with_dot (last_part (url req) parts)
            then None
            else if has_trailing_slash (url req) then
              match fs env (root ++ parts ++ ["index.html"%string]) with
              | Some (File content) =>
                  Some (SendFile (root ++ parts ++ ["index.html"%string]) content)
              | _ => None
              end
            else
              match fs env (root ++ parts) with
              | Some (File content) => Some (SendFile (root ++ parts) content)
              | Some Directory => Some (Redirect (originalUrl req ++ [""%string]))
              | None => None
              end
        end
    | _ => None
    end.

(** The view lookup of [res.render(name)] in the [views] directory with
    the extension [html]: the file [name.html], else the file
    [name/index.html]. *)
Definition lookup_view (views : list string) (name : string) (env : environment)
  : option (list Byte.byte) :=
  match fs env (views ++ [(name ++ ".html")%string]) with
  | Some (File template) => Some template
  | _ =>
      match fs env (views ++ [name; "index.html"%string]) with
      | Some (File template) => Some template
      | _ => None
      end
  end.

(** [res.render(name)] with the engine registered for [html]: the view
    is looked up, rendered with the options given and sent as HTML; a
    view that is not found or a failing engine is a server error. *)
Definition render (views : list string) (name : string) (options : locals)
           (env : environment) : Response :=
  match lookup_view views name env with
  | Some template =>
      match engine env template options with
      | Some html => Rendered name options html
      | None => ServerError
      end
  | None => ServerError
  end.

(** [(req: Request, res: Response) => { res.render("index"); }] *)
Definition catch_all (env : environment) : handler :=
  fun _ => Some (render ["public"%string; "views"%string] "index" [] env).

(** The application, in the order of registration. *)
Definition app (env : environment) : list Layer :=
  [ use_all morgan;
    use "/public" (serve_static ["public"%string] env);
    get_all (catch_all env) ].

Definition serve (env : environment) (req : Request) : Response :=
  dispatch (app env) req.

(** A request as it arrives: [url] is the whole path. *)
Definition request (m : method) (path : list string) : Request :=
  {| req_method := m; originalUrl := path; url := path |}.

(** A segment that normalisation keeps and the dotfile rule lets pass:
    not empty and not starting with a dot. *)
Definition plain_segment (seg : string) : bool :=
  match seg with
  | EmptyString => false
  | String c _ => negb (Ascii.eqb c ".")
  end.

(** A small deployment to run requests on: the built view
    [public/views/index.html] and the bundle [public/js/main.js] exist,
    the engine returns a template's text as it is. *)
Definition example_template : list Byte.byte := [Byte.x3c; Byte.x70; Byte.x3e].

Definition example_bundle : list Byte.byte := [Byte.x31; Byte.x3b].

Definition path_eqb (p q : list string) : bool :=
  if list_eq_dec string_dec p q then true else false.

Definition example_fs (path : list string) : option entry :=
  if path_eqb path ["public"; "views"; "index.html"]%string then Some (File example_template)
  else if path_eqb path ["public"; "js"; "main.js"]%string then Some (File example_bundle)
  else if path_eqb path ["public"]%string then Some Directory
  else if path_eqb path ["public"; "js"]%string then Some Directory
  else if path_eqb path ["public"; "views"]%string then Some Directory
  else None.

Definition example_env : environment :=
  {| fs := example_fs;
     engine := fun template _ => Some template;
     mime := fun _ => "application/octet-stream"%string |}.

(** The answer of the static layer to a request, [None] when the layer
    does not match or passes the request on. *)
Definition static_answer (env : environment) (req : Request) : option Response :=
  match under_mount "/public" (url req) with
  | Some rest =>
      serve_static ["public"%string] env
        {| req_method := req_method req; originalUrl := originalUrl req; url := rest |}
  | None => None
  end.

(** A segment that normalisation keeps: not empty and no dot segment. *)
Definition normal_segment (seg : string) : bool :=
  negb (String.eqb seg "") && negb (String.eqb seg ".") && negb (String.eqb seg "..").



End Express.

(** ** The client build (webpack.client.config.js)

    The part of the configuration that fixes where the build writes and
    under which URLs the page loads what it wrote: the entry, the
    output and the plugins.  The loader chain and the resolver options
    are outside the model.  Paths are relative to [__dirname], which is
    also the directory the server bundle runs in. *)
Module Webpack.

Inductive Plugin : Type :=
| CommonsChunkPlugin (name : string)
| ForkTsCheckerWebpackPlugin
| HtmlWebpackPlugin (filename : list string) (appMountId : string)
| UglifyJsPlugin.

(** [filename] is the template ['[name].js'] as a function of the chunk
    name; [publicPath] ends with a slash. *)
Record Output : Type := {
  filename : string -> string;
  path : list string;
  publicPath : list string
}.

Record Configuration : Type := {
  entry : list string;
  output : Output;
  plugins : list Plugin
}.

(** [module.exports = function (env, args)]: the configuration, with the
    minifier pushed onto the plugins when [process.env.NODE_ENV] is
    ['production']. *)
Definition client_config (NODE_ENV : option string) : Configuration :=
  let config :=
    {| entry := ["src"; "client"; "index.ts"]%string;
       output :=
         {| filename := fun name => (name ++ ".js")%string;
            path := ["public"; "js"]%string;
            publicPath := ["public"; "js"; ""]%string |};
       plugins :=
         [ CommonsChunkPlugin "vendor";
           CommonsChunkPlugin "manifest";
           ForkTsCheckerWebpackPlugin;
           HtmlWebpackPlugin ["public"; "views"; "index.html"]%string "app" ] |} in
  match NODE_ENV with
  | Some value =>
      if String.eqb value "production"
      then {| entry := entry config;
              output := output config;
              plugins := plugins config ++ [UglifyJsPlugin] |}
      else config
  | None => config
  end.

(** The URL of an emitted file: the public path followed by its name. *)
Definition asset_url (publicPath : list string) (file : string) : list string :=
  removelast publicPath ++ [file].

End Webpack.

(** * Properties *)

(** ** Binary64 arithmetic on integers

    Integers of magnitude below 2^53 are represented exactly, and adding
    two of them is exact when the total stays below 2^53. *)
Module JSNumberFacts.
Import JSNumber.

Lemma shl_Z q k : Zpos (shl q k) = Zpos q * 2 ^ Z.of_nat k.
Proof.
  induction k as [|k IH].
  - simpl. lia.
  - change (shl q (S k)) with (xO (shl q k)).
    rewrite (Pos2Z.inj_xO (shl q k)), IH, Nat2Z.inj_succ, Z.pow_succ_r by lia.
    ring.
Qed.

Lemma shl_digits q k :
  Zpos (digits2_pos (shl q k)) = Zpos (digits2_pos q) + Z.of_nat k.
Proof.
  induction k as [|k IH].
  - simpl. lia.
  - change (shl q (S k)) with (xO (shl q k)). simpl digits2_pos.
    rewrite Pos2Z.inj_succ, IH. lia.
Qed.

Lemma shl_add q j k : shl (shl q j) k = shl q (j + k).
Proof. unfold shl. rewrite Nat.add_comm. symmetry. apply Nat.iter_add. Qed.

Lemma pos_iter_shl q p : Pos.iter xO q p = shl q (Pos.to_nat p).
Proof. unfold shl. apply Pos2Nat.inj_iter. Qed.

Lemma iter_pos_nat {A} (f : A -> A) p x :
  iter_pos f p x = Nat.iter (Pos.to_nat p) f x.
Proof.
  revert x. induction p as [p IH|p IH|]; intro x; simpl iter_pos.
  - rewrite !IH, Pos2Nat.inj_xI.
    rewrite <- Nat.iter_succ_r, <- Nat.iter_add.
    replace (Pos.to_nat p + S (Pos.to_nat p))%nat with (S (2 * Pos.to_nat p)) by lia.
    reflexivity.
  - rewrite !IH, Pos2Nat.inj_xO, <- Nat.iter_add.
    replace (Pos.to_nat p + Pos.to_nat p)%nat with (2 * Pos.to_nat p)%nat by lia.
    reflexivity.
  - reflexivity.
Qed.

Lemma iter_shr_1_shl q n k :
  Nat.iter n shr_1 {| shr_m := Zpos (shl q (n + k)); shr_r := false; shr_s := false |}
  = {| shr_m := Zpos (shl q k); shr_r := false; shr_s := false |}.
Proof.
  induction n as [|n IH].
  - reflexivity.
  - rewrite Nat.iter_succ_r. exact IH.
Qed.

Lemma digits2_pos_bounds p :
  2 ^ (Zpos (digits2_pos p) - 1) <= Zpos p < 2 ^ Zpos (digits2_pos p).
Proof.
  induction p as [p IH|p IH|]; simpl digits2_pos.
  - rewrite Pos2Z.inj_succ, (Pos2Z.inj_xI p).
    replace (Z.succ (Zpos (digits2_pos p)) - 1)
      with (Z.succ (Zpos (digits2_pos p) - 1)) by lia.
    rewrite !Z.pow_succ_r by lia. lia.
  - rewrite Pos2Z.inj_succ, (Pos2Z.inj_xO p).
    replace (Z.succ (Zpos (digits2_pos p)) - 1)
      with (Z.succ (Zpos (digits2_pos p) - 1)) by lia.
    rewrite !Z.pow_succ_r by lia. lia.
  - change (1 <= 1 < 2). lia.
Qed.

Lemma digits2_pos_le p n : 0 <= n -> Zpos p < 2 ^ n -> Zpos (digits2_pos p) <= n.
Proof.
  intros Hn Hp.
  destruct (Z_le_gt_dec (Zpos (digits2_pos p)) n) as [H|H]; [exact H|].
  exfalso. pose proof (digits2_pos_bounds p) as [Hlo _].
  assert (2 ^ n <= 2 ^ (Zpos (digits2_pos p) - 1)) by (apply Z.pow_le_mono_r; lia).
  lia.
Qed.

Lemma fexp_normal x : -1074 <= x - 53 -> fexp prec emax x = x - 53.
Proof. unfold fexp, emin, prec, emax. lia. Qed.

Lemma shr_fexp_53 m e :
  Zpos (digits2_pos m) = 53 -> -1074 <= e ->
  shr_fexp prec emax (Zpos m) e loc_Exact
  = ({| shr_m := Zpos m; shr_r := false; shr_s := false |}, e).
Proof.
  intros Hd He. unfold shr_fexp.
  simpl Zdigits2. rewrite Hd, fexp_normal by lia.
  replace (53 + e - 53 - e) with 0 by lia.
  reflexivity.
Qed.

(** Rounding a mantissa of exactly 53 digits changes nothing. *)
Lemma binary_round_aux_53 s m e :
  Zpos (digits2_pos m) = 53 -> -1074 <= e <= 971 ->
  binary_round_aux prec emax s (Zpos m) e loc_Exact = S754_finite s m e.
Proof.
  intros Hd He. unfold binary_round_aux.
  rewrite shr_fexp_53 by lia.
  cbn [shr_m loc_of_shr_record round_nearest_even].
  rewrite shr_fexp_53 by lia.
  cbn [shr_m]. unfold emax, prec.
  destruct (Z.leb_spec e (1024 - 53)); [reflexivity|lia].
Qed.

(** A mantissa [q * 2^k] with [q] of at most 53 digits is normalised
    without loss, whether that shifts it left or right. *)
Lemma binary_round_shl s q k e :
  let d := Zpos (digits2_pos q) in
  d <= 53 -> -1074 <= e + Z.of_nat k + d - 53 <= 971 ->
  binary_round prec emax s (shl q k) e
  = S754_finite s (shl q (Z.to_nat (53 - d))) (e + Z.of_nat k + d - 53).
Proof.
  intros d Hd He.
  unfold binary_round.
  rewrite shl_digits. fold d.
  rewrite fexp_normal by lia.
  unfold shl_align.
  destruct (d + Z.of_nat k + e - 53 - e) as [|p|p] eqn:Hdiff.
  - assert (Hk : k = Z.to_nat (53 - d)) by lia. rewrite <- Hk.
    rewrite binary_round_aux_53;
      [f_equal; lia | rewrite shl_digits; fold d; lia | lia].
  - unfold binary_round_aux, shr_fexp at 1.
    simpl Zdigits2. rewrite shl_digits. fold d.
    rewrite fexp_normal by lia.
    replace (d + Z.of_nat k + e - 53 - e) with (Zpos p) by lia.
    cbn [shr_record_of_loc shr]. rewrite iter_pos_nat.
    assert (Hit : Nat.iter (Pos.to_nat p) shr_1
                    {| shr_m := Zpos (shl q k); shr_r := false; shr_s := false |}
                  = {| shr_m := Zpos (shl q (Z.to_nat (53 - d)));
                       shr_r := false; shr_s := false |}).
    { replace k with (Pos.to_nat p + Z.to_nat (53 - d))%nat at 1 by lia.
      apply iter_shr_1_shl. }
    rewrite Hit.
    cbn [shr_m loc_of_shr_record round_nearest_even].
    rewrite shr_fexp_53; [| rewrite shl_digits; fold d; lia | lia].
    cbn [shr_m]. unfold emax, prec.
    destruct (Z.leb_spec (e + Zpos p) (1024 - 53)); [f_equal; lia | lia].
  - rewrite pos_iter_shl, shl_add.
    rewrite binary_round_aux_53.
    + f_equal; [f_equal; lia | lia].
    + rewrite shl_digits. fold d. lia.
    + lia.
Qed.

Lemma shl_align_fst m e ez :
  ez <= e -> fst (shl_align m e ez) = shl m (Z.to_nat (e - ez)).
Proof.
  intro H. unfold shl_align.
  destruct (ez - e) as [|p|p] eqn:Hd.
  - replace (e - ez) with 0 by lia. reflexivity.
  - lia.
  - cbn [fst]. rewrite pos_iter_shl. f_equal. lia.
Qed.

Lemma binary_round_canon s q k e :
  Zpos q < 2 ^ 53 -> e + Z.of_nat k = 0 ->
  binary_round prec emax s (shl q k) e = canon s q.
Proof.
  intros Hq Hek.
  pose proof (digits2_pos_le q 53 ltac:(lia) Hq) as Hd.
  rewrite binary_round_shl by lia.
  unfold canon. f_equal. lia.
Qed.

Lemma of_Z_pos q : Zpos q < 2 ^ 53 -> of_Z (Zpos q) = canon false q.
Proof. intro H. apply (binary_round_canon false q 0 0 H). reflexivity. Qed.

Lemma of_Z_neg q : Zpos q < 2 ^ 53 -> of_Z (Zneg q) = canon true q.
Proof. intro H. apply (binary_round_canon true q 0 0 H). reflexivity. Qed.

Lemma binary_normalize_scaled z k e :
  Z.abs z < 2 ^ 53 -> e + Z.of_nat k = 0 ->
  binary_normalize prec emax (z * 2 ^ Z.of_nat k) e false = of_Z z.
Proof.
  intros Hz Hek. destruct z as [|r|r].
  - reflexivity.
  - rewrite <- shl_Z, of_Z_pos by lia. apply binary_round_canon; lia.
  - change (Zneg r) with (- Zpos r) at 1.
    rewrite Z.mul_opp_l, <- shl_Z, of_Z_neg by lia.
    apply binary_round_canon; lia.
Qed.

Lemma add_canon sa qa sb qb :
  Zpos qa < 2 ^ 53 -> Zpos qb < 2 ^ 53 ->
  Z.abs (cond_Zopp sa (Zpos qa) + cond_Zopp sb (Zpos qb)) < 2 ^ 53 ->
  add (canon sa qa) (canon sb qb)
  = of_Z (cond_Zopp sa (Zpos qa) + cond_Zopp sb (Zpos qb)).
Proof.
  intros Ha Hb Hab.
  pose proof (digits2_pos_le qa 53 ltac:(lia) Ha) as Hda.
  pose proof (digits2_pos_le qb 53 ltac:(lia) Hb) as Hdb.
  unfold add, canon, SFadd.
  set (da := Zpos (digits2_pos qa)) in *. set (db := Zpos (digits2_pos qb)) in *.
  set (ez := Z.min (da - 53) (db - 53)).
  rewrite !shl_align_fst by lia. rewrite !shl_add.
  set (k := Z.to_nat (- ez)).
  replace (Z.to_nat (53 - da) + Z.to_nat (da - 53 - ez))%nat with k by lia.
  replace (Z.to_nat (53 - db) + Z.to_nat (db - 53 - ez))%nat with k by lia.
  rewrite <- (binary_normalize_scaled _ k ez Hab) by lia.
  f_equal. rewrite !shl_Z. destruct sa, sb; cbn [cond_Zopp]; ring.
Qed.

(** Addition of integers is exact while everything stays below 2^53. *)
Lemma add_of_Z a b :
  Z.abs a < 2 ^ 53 -> Z.abs b < 2 ^ 53 -> Z.abs (a + b) < 2 ^ 53 ->
  add (of_Z a) (of_Z b) = of_Z (a + b).
Proof.
  intros Ha Hb Hab.
  destruct a as [|qa|qa].
  - destruct b as [|qb|qb]; [reflexivity| |].
    + rewrite Z.add_0_l, of_Z_pos by lia. reflexivity.
    + rewrite Z.add_0_l, of_Z_neg by lia. reflexivity.
  - destruct b as [|qb|qb].
    + rewrite Z.add_0_r, of_Z_pos by lia. reflexivity.
    + rewrite (of_Z_pos qa), (of_Z_pos qb) by lia.
      apply (add_canon false qa false qb); cbn [cond_Zopp]; lia.
    + rewrite (of_Z_pos qa), (of_Z_neg qb) by lia.
      apply (add_canon false qa true qb); cbn [cond_Zopp]; lia.
  - destruct b as [|qb|qb].
    + rewrite Z.add_0_r, of_Z_neg by lia. reflexivity.
    + rewrite (of_Z_neg qa), (of_Z_pos qb) by lia.
      apply (add_canon true qa false qb); cbn [cond_Zopp]; lia.
    + rewrite (of_Z_neg qa), (of_Z_neg qb) by lia.
      apply (add_canon true qa true qb); cbn [cond_Zopp]; lia.
Qed.

End JSNumberFacts.

(** ** [reduce] is a left fold *)
Module JSArrayFacts.
Import JSArray.

Lemma skipn_nth_error {A} (l : list A) k v :
  nth_error l k = Some v -> skipn k l = v :: skipn (S k) l.
Proof.
  revert k. induction l as [|x l IH]; intros [|k] H; simpl in H; try discriminate.
  - injection H as ->. reflexivity.
  - exact (IH k H).
Qed.

Lemma reduce_from_fold {A B} (callbackfn : B -> A -> nat -> list A -> B)
      (f : B -> A -> B) (arr : list A) :
  (forall a b k, callbackfn a b k arr = f a b) ->
  forall n k accumulator,
    (k + n)%nat = List.length arr ->
    reduce_from callbackfn arr n k accumulator = fold_left f (skipn k arr) accumulator.
Proof.
  intro Hcb. induction n as [|n IH]; intros k acc Hlen.
  - rewrite skipn_all2 by lia. reflexivity.
  - simpl reduce_from.
    destruct (nth_error arr k) as [v|] eqn:Hk.
    + rewrite (skipn_nth_error arr k v Hk). simpl fold_left.
      rewrite Hcb. apply IH. lia.
    + apply nth_error_None in Hk. lia.
Qed.

Lemma reduce_fold {A B} (callbackfn : B -> A -> nat -> list A -> B)
      (f : B -> A -> B) (arr : list A) initialValue :
  (forall a b k, callbackfn a b k arr = f a b) ->
  reduce callbackfn arr initialValue = fold_left f arr initialValue.
Proof.
  intro Hcb. unfold reduce.
  rewrite (reduce_from_fold callbackfn f arr Hcb) by reflexivity.
  reflexivity.
Qed.

End JSArrayFacts.

(** ** [sum] *)
Module SumFacts.
Import JSNumber Sum JSNumberFacts.

Lemma sum_fold args : sum args = fold_left add args pos_zero.
Proof. unfold sum. apply JSArrayFacts.reduce_fold. reflexivity. Qed.

Lemma total_magnitude_nonneg zs : 0 <= total_magnitude zs.
Proof. induction zs as [|z zs IH]; simpl; lia. Qed.

Lemma integer_total_bound zs : Z.abs (integer_total zs) <= total_magnitude zs.
Proof. induction zs as [|z zs IH]; simpl; lia. Qed.

Lemma integer_total_app xs ys :
  integer_total (xs ++ ys) = integer_total xs + integer_total ys.
Proof. induction xs as [|x xs IH]; simpl; lia. Qed.

Lemma total_magnitude_app xs ys :
  total_magnitude (xs ++ ys) = total_magnitude xs + total_magnitude ys.
Proof. induction xs as [|x xs IH]; simpl; lia. Qed.

Lemma integer_total_rev zs : integer_total (rev zs) = integer_total zs.
Proof.
  induction zs as [|z zs IH]; simpl; [reflexivity|].
  rewrite integer_total_app, IH. simpl. lia.
Qed.

Lemma total_magnitude_rev zs : total_magnitude (rev zs) = total_magnitude zs.
Proof.
  induction zs as [|z zs IH]; simpl; [reflexivity|].
  rewrite total_magnitude_app, IH. simpl. lia.
Qed.

(** While the magnitudes stay within the safe integers every addition of
    the fold is exact. *)
Lemma fold_add_of_Z zs : forall acc,
  Z.abs acc + total_magnitude zs <= MAX_SAFE_INTEGER ->
  fold_left add (List.map of_Z zs) (of_Z acc) = of_Z (acc + integer_total zs).
Proof.
  unfold MAX_SAFE_INTEGER.
  induction zs as [|z zs IH]; intros acc H; simpl in *.
  - f_equal. lia.
  - pose proof (total_magnitude_nonneg zs).
    rewrite add_of_Z by lia.
    rewrite IH by lia. f_equal. lia.
Qed.

Lemma sum_of_integers zs :
  total_magnitude zs <= MAX_SAFE_INTEGER ->
  sum (List.map of_Z zs) = of_Z (integer_total zs).
Proof.
  intro H. rewrite sum_fold.
  change pos_zero with (of_Z 0).
  rewrite fold_add_of_Z by (simpl; lia). reflexivity.
Qed.

(** C4: [sum] is the full left-to-right fold of addition over its
    arguments starting from 0: it equals the fold for every argument
    sequence, and a further last argument is added to the total of the
    arguments before it. *)
Theorem sum_is_left_fold : forall args : list number,
  sum args = sum_left_fold args
  /\ forall b, sum (args ++ [b]) = add (sum args) b.
Proof.
  intro args. split.
  - apply sum_fold.
  - intro b. rewrite !sum_fold. apply fold_left_app.
Qed.

(** C5: [sum] of the empty sequence is exactly 0 (positive zero). *)
Theorem sum_empty : sum [] = pos_zero /\ sum [] = of_Z 0.
Proof. split; reflexivity. Qed.

(** C6, as stated, fails at negative zero: [sum(-0)] is [0 + -0], which
    is positive zero, a different value of the number type. *)
Lemma sum_singleton_neg_zero :
  representable neg_zero
  /\ sum [neg_zero] = pos_zero
  /\ sum [neg_zero] <> neg_zero.
Proof.
  split; [reflexivity|]. split; [reflexivity|].
  intro H. vm_compute in H. discriminate H.
Qed.

(** C6, amended: for every number [a] other than negative zero (NaN and
    the infinities included), [sum] of the one-element sequence [a] is
    [a]. *)
Theorem sum_singleton : forall a : number,
  a <> neg_zero -> sum [a] = a.
Proof.
  intros a Ha. rewrite sum_fold. simpl. unfold add, pos_zero.
  destruct a as [[|]| | |]; try reflexivity.
  exfalso. apply Ha. reflexivity.
Qed.

(** Under the language's equality the two zeros are equal, so only NaN,
    which equals nothing, is set apart there. *)
Lemma sum_singleton_strict_eq (a : number) :
  a <> NaN -> strict_eq (sum [a]) a = true.
Proof.
  intro Ha. rewrite sum_fold. simpl. unfold add, pos_zero, strict_eq, SFeqb.
  destruct a as [[|]|[|]| |[|] m e]; try reflexivity; try (exfalso; apply Ha; reflexivity).
  - simpl. rewrite Z.compare_refl.
    replace (Pos.compare_cont Eq m m) with Eq by (symmetry; apply Pos.compare_cont_refl).
    reflexivity.
  - simpl. rewrite Z.compare_refl.
    replace (Pos.compare_cont Eq m m) with Eq by (symmetry; apply Pos.compare_cont_refl).
    reflexivity.
Qed.

Lemma sum_singleton_witness :
  of_Z 89381759823749183247 <> neg_zero
  /\ sum [of_Z 89381759823749183247] = of_Z 89381759823749183247.
Proof.
  split.
  - intro H. vm_compute in H. discriminate H.
  - apply sum_singleton. intro H. vm_compute in H. discriminate H.
Defined.

(** C3, as stated, fails on numbers: past 2^53 additions round, and the
    order of the arguments changes the total. *)
Lemma sum_reverse_differs :
  let xs := List.map of_Z [9007199254740992; 1; 1] in
  Forall representable xs
  /\ sum xs = of_Z 9007199254740992
  /\ sum (rev xs) = of_Z 9007199254740994
  /\ strict_eq (sum xs) (sum (rev xs)) = false
  /\ sum xs <> sum (rev xs).
Proof.
  cbv zeta. repeat split.
  - repeat constructor.
  - intro H. vm_compute in H. discriminate H.
Qed.

(** C3, amended: for every finite sequence of integers whose magnitudes
    add up to at most [Number.MAX_SAFE_INTEGER], [sum] of the sequence
    equals [sum] of the reversed sequence (and both are the exact
    total). *)
Theorem sum_reverse_safe_integers : forall zs : list Z,
  total_magnitude zs <= MAX_SAFE_INTEGER ->
  sum (List.map of_Z zs) = sum (rev (List.map of_Z zs))
  /\ sum (List.map of_Z zs) = of_Z (integer_total zs).
Proof.
  intros zs H. split; [|apply sum_of_integers; exact H].
  rewrite <- map_rev.
  rewrite !sum_of_integers by (rewrite ?total_magnitude_rev; exact H).
  rewrite integer_total_rev. reflexivity.
Qed.

Lemma sum_reverse_safe_integers_witness :
  total_magnitude [12; 24; 5; 7; 8; 9; 5; 4; 345; 6; 7; 2; 1] <= MAX_SAFE_INTEGER
  /\ sum (List.map of_Z [12; 24; 5; 7; 8; 9; 5; 4; 345; 6; 7; 2; 1])
     = sum (rev (List.map of_Z [12; 24; 5; 7; 8; 9; 5; 4; 345; 6; 7; 2; 1])).
Proof.
  split.
  - vm_compute. discriminate.
  - apply sum_reverse_safe_integers. vm_compute. discriminate.
Defined.

End SumFacts.

(** ** [shift] *)
Module ShiftFacts.
Import JSNumber JSString Shift JSNumberFacts.

(** Induction along the string iterator. *)
Lemma spread_ind (P : list code_unit -> Prop) :
  P [] ->
  (forall u, P [u]) ->
  (forall u v rest,
      is_leading_surrogate u && is_trailing_surrogate v = true ->
      P rest -> P (u :: v :: rest)) ->
  (forall u v rest,
      is_leading_surrogate u && is_trailing_surrogate v = false ->
      P (v :: rest) -> P (u :: v :: rest)) ->
  forall s : list code_unit, P s.
Proof.
  intros Hnil Hone Hpair Hsingle s.
  assert (H : P s /\ forall u, P (u :: s)); [|exact (proj1 H)].
  induction s as [|v rest [IH1 IH2]].
  - split; [exact Hnil | exact Hone].
  - split; [apply IH2|].
    intro u.
    destruct (is_leading_surrogate u && is_trailing_surrogate v) eqn:E.
    + apply Hpair; assumption.
    + apply Hsingle; [assumption | apply IH2].
Qed.

Lemma spread_pair u v rest :
  is_leading_surrogate u && is_trailing_surrogate v = true ->
  spread (u :: v :: rest) = [u; v] :: spread rest.
Proof. intro E. simpl. rewrite E. reflexivity. Qed.

Lemma spread_single u v rest :
  is_leading_surrogate u && is_trailing_surrogate v = false ->
  spread (u :: v :: rest) = [u] :: spread (v :: rest).
Proof. intro E. cbn [spread]. rewrite E. reflexivity. Qed.

Lemma join_empty_cons e arr : join [] (e :: arr) = e ++ join [] arr.
Proof.
  destruct arr as [|e' arr]; simpl.
  - symmetry. apply app_nil_r.
  - reflexivity.
Qed.

Lemma join_empty arr : join [] arr = List.concat arr.
Proof.
  induction arr as [|e arr IH]; [reflexivity|].
  rewrite join_empty_cons, IH. reflexivity.
Qed.

Lemma shift_concat str : shift str = List.concat (List.map shift_char (spread str)).
Proof. unfold shift, JSArray.map. apply join_empty. Qed.

Lemma truncate_canon s q :
  Zpos q < 2 ^ 53 -> truncate (canon s q) = cond_Zopp s (Zpos q).
Proof.
  intro H. pose proof (digits2_pos_le q 53 ltac:(lia) H) as Hd.
  unfold canon, truncate.
  destruct (Zpos (digits2_pos q) - 53) as [|e|e] eqn:He.
  - replace (53 - Zpos (digits2_pos q)) with 0 by lia.
    f_equal. change (shl q (Z.to_nat 0)) with q. change (2 ^ 0) with 1. lia.
  - lia.
  - f_equal. rewrite shl_Z.
    replace (Z.of_nat (Z.to_nat (53 - Zpos (digits2_pos q)))) with (Zpos e) by lia.
    apply Z.div_mul. apply Z.pow_nonzero; lia.
Qed.

Lemma truncate_of_Z n : Z.abs n < 2 ^ 53 -> truncate (of_Z n) = n.
Proof.
  intro H. destruct n as [|q|q].
  - reflexivity.
  - rewrite of_Z_pos, truncate_canon by lia. reflexivity.
  - rewrite of_Z_neg, truncate_canon by lia. reflexivity.
Qed.

(** The callback on a character whose first code unit is [u]. *)
Lemma shift_char_first u rest :
  is_code_unit u -> shift_char (u :: rest) = [(u + 1) mod 65536].
Proof.
  unfold is_code_unit. intro Hu.
  unfold shift_char, fromCharCode, ToUint16.
  change (charCodeAt (u :: rest) 0) with (of_Z u).
  rewrite add_of_Z by lia.
  rewrite truncate_of_Z by lia. reflexivity.
Qed.

Lemma spread_chars_well_formed s :
  well_formed s ->
  Forall (fun ch => ch <> [] /\ is_code_unit (first_unit ch)) (spread s).
Proof.
  unfold well_formed.
  induction s as [| u | u v rest E IH | u v rest E IH] using spread_ind; intro H.
  - constructor.
  - inversion H; subst.
    constructor; [split; [discriminate | assumption] | constructor].
  - rewrite spread_pair by exact E. inversion H as [|? ? Hu Hrest]; subst.
    inversion Hrest; subst.
    constructor; [split; [discriminate | assumption] | apply IH; assumption].
  - rewrite spread_single by exact E. inversion H as [|? ? Hu Hrest]; subst.
    constructor; [split; [discriminate | assumption] | apply IH; assumption].
Qed.

Lemma shift_units s :
  well_formed s ->
  shift s = List.map (fun ch => (first_unit ch + 1) mod 65536) (spread s).
Proof.
  intro H. rewrite shift_concat.
  pose proof (spread_chars_well_formed s H) as Hall.
  induction Hall as [|ch chars [Hne Hu] _ IH]; [reflexivity|].
  destruct ch as [|u rest]; [congruence|].
  cbn [List.map List.concat]. rewrite shift_char_first by exact Hu.
  rewrite IH. reflexivity.
Qed.

Lemma shift_char_length e : List.length (shift_char e) = 1%nat.
Proof. reflexivity. Qed.

Lemma spread_no_leading (s : list code_unit) :
  Forall (fun u => is_leading_surrogate u = false) s ->
  spread s = List.map (fun u => [u]) s.
Proof.
  induction s as [| u | u v rest E IH | u v rest E IH] using spread_ind; intro H.
  - reflexivity.
  - reflexivity.
  - inversion H as [|? ? Hu _]; subst. rewrite Hu in E. discriminate E.
  - rewrite spread_single by exact E. inversion H; subst.
    rewrite IH by assumption. reflexivity.
Qed.

Lemma spread_no_trailing (s : list code_unit) :
  Forall (fun u => is_trailing_surrogate u = false) s ->
  spread s = List.map (fun u => [u]) s.
Proof.
  induction s as [| u | u v rest E IH | u v rest E IH] using spread_ind; intro H.
  - reflexivity.
  - reflexivity.
  - inversion H as [|? ? _ Hrest]; subst. inversion Hrest as [|? ? Hv _]; subst.
    rewrite Hv, andb_false_r in E. discriminate E.
  - rewrite spread_single by exact E. inversion H; subst.
    rewrite IH by assumption. reflexivity.
Qed.

Lemma code_points_units s :
  spread s = List.map (fun u => [u]) s -> code_points s = s.
Proof.
  unfold code_points. intros ->. rewrite map_map. simpl. apply map_id.
Qed.

(** C10: [shift] increments the first 16-bit code unit of each iterated
    character modulo 2^16; a character whose first code unit is 0xFFFF
    becomes U+0000, and a surrogate pair becomes the single code unit
    after its high surrogate, whatever its low surrogate is. *)
Theorem shift_first_code_unit : forall s : js_string,
  well_formed s ->
  shift s = List.map (fun ch => (first_unit ch + 1) mod 65536) (spread s)
  /\ (forall ch, In ch (spread s) -> first_unit ch = 65535 -> shift_char ch = [0])
  /\ (forall hi lo, In [hi; lo] (spread s) ->
        is_leading_surrogate hi = true -> shift_char [hi; lo] = [hi + 1]).
Proof.
  intros s H. split; [apply shift_units; exact H|].
  pose proof (spread_chars_well_formed s H) as Hall.
  rewrite Forall_forall in Hall. split.
  - intros ch Hin Hfirst. destruct (Hall ch Hin) as [Hne Hu].
    destruct ch as [|u rest]; [congruence|].
    rewrite shift_char_first by exact Hu.
    simpl in Hfirst. subst u. reflexivity.
  - intros hi lo Hin Hhi. destruct (Hall _ Hin) as [_ Hu].
    rewrite shift_char_first by exact Hu.
    unfold is_leading_surrogate in Hhi.
    apply andb_prop in Hhi as [Hlo' Hhi'].
    apply Z.leb_le in Hlo', Hhi'.
    rewrite Z.mod_small by lia. reflexivity.
Qed.

Lemma shift_first_code_unit_witness :
  well_formed [65535; 55357; 56832]
  /\ shift [65535; 55357; 56832] = [0; 55358].
Proof.
  assert (H : well_formed [65535; 55357; 56832])
    by (repeat constructor; unfold is_code_unit; lia).
  split; [exact H|].
  exact (proj1 (shift_first_code_unit [65535; 55357; 56832] H)).
Defined.

(** C7, as stated, fails: the string U+D7FF U+10FFFF has two scalar
    values, and its shift, the surrogate pair D800 DC00, has one. *)
Lemma shift_scalar_length_differs :
  let s := [55295; 56319; 57343] in
  well_formed_utf16 s = true
  /\ well_formed_utf16 (shift s) = true
  /\ scalar_length s = 2%nat
  /\ scalar_length (shift s) = 1%nat
  /\ scalar_length (shift s) <> scalar_length s.
Proof.
  cbv zeta. repeat split. intro H. vm_compute in H. discriminate H.
Qed.

(** C7, amended: for every string [s], the length of [shift(s)] in
    16-bit code units equals the length of [s] in characters as the
    string iterator counts them. *)
Theorem shift_length : forall s : js_string,
  List.length (shift s) = scalar_length s.
Proof.
  intro s. rewrite shift_concat. unfold scalar_length.
  induction (spread s) as [|ch chars IH]; [reflexivity|].
  simpl. rewrite IH. reflexivity.
Qed.

(** C1, as stated, fails outside the basic multilingual plane and at
    U+FFFF: U+1F600 (two code units) becomes the single unit D83E, and
    U+FFFF becomes U+0000. *)
Lemma shift_code_point_differs :
  well_formed [55357; 56832]
  /\ code_points [55357; 56832] = [128512]
  /\ shift [55357; 56832] = [55358]
  /\ List.length (shift [55357; 56832]) <> List.length [55357; 56832]
  /\ code_points (shift [55357; 56832])
     <> List.map (fun c => c + 1) (code_points [55357; 56832])
  /\ code_points (shift [65535]) <> List.map (fun c => c + 1) (code_points [65535]).
Proof.
  split; [repeat constructor; unfold is_code_unit; lia|].
  repeat split; intro H; vm_compute in H; discriminate H.
Qed.

(** C1, amended: for every string [s] of characters of the basic
    multilingual plane (no surrogate code units) other than U+FFFF,
    [shift(s)] has the length of [s] and each character's code point is
    the code point of the corresponding character of [s] plus one; in
    particular [shift("a")] is ["b"] and [shift("")] is [""]. *)
Theorem shift_bmp : forall s : js_string,
  Forall is_bmp_scalar_below_last s ->
  List.length (shift s) = List.length s
  /\ code_points (shift s) = List.map (fun c => c + 1) (code_points s)
  /\ shift (literal "a") = literal "b"
  /\ shift (literal "") = literal "".
Proof.
  intros s H.
  assert (Hwf : well_formed s).
  { eapply Forall_impl; [|exact H]. unfold is_bmp_scalar_below_last, is_code_unit. lia. }
  assert (Hin : spread s = List.map (fun u => [u]) s).
  { apply spread_no_leading. eapply Forall_impl; [|exact H].
    unfold is_bmp_scalar_below_last, is_leading_surrogate. lia. }
  assert (Hshift : shift s = List.map (fun u => u + 1) s).
  { rewrite shift_units by exact Hwf. rewrite Hin, map_map.
    apply map_ext_in. intros u Hu. rewrite Forall_forall in H.
    specialize (H u Hu). unfold is_bmp_scalar_below_last in H.
    simpl. apply Z.mod_small. lia. }
  assert (Hout : spread (shift s) = List.map (fun u => [u]) (shift s)).
  { apply spread_no_trailing. rewrite Hshift. rewrite Forall_map.
    eapply Forall_impl; [|exact H].
    unfold is_bmp_scalar_below_last, is_trailing_surrogate. lia. }
  split; [rewrite Hshift; apply length_map|].
  split; [|split; reflexivity].
  rewrite (code_points_units _ Hout), (code_points_units _ Hin). exact Hshift.
Qed.

Lemma shift_bmp_witness :
  Forall is_bmp_scalar_below_last (literal "Hello, World!")
  /\ List.length (shift (literal "Hello, World!")) = List.length (literal "Hello, World!")
  /\ code_points (shift (literal "Hello, World!"))
     = List.map (fun c => c + 1) (code_points (literal "Hello, World!")).
Proof.
  assert (H : Forall is_bmp_scalar_below_last (literal "Hello, World!"))
    by (repeat constructor; unfold is_bmp_scalar_below_last; simpl; lia).
  split; [exact H|].
  pose proof (shift_bmp (literal "Hello, World!") H) as [Hlen [Hcp _]].
  split; [exact Hlen | exact Hcp].
Defined.

End ShiftFacts.

(** ** The client bootstrap *)
Module ClientFacts.
Import JSNumber JSString DOM Client.

(** Induction on a tree with the hypothesis for every child. *)
Lemma node_tree_ind (P : node -> Prop) :
  (forall data, P (Text data)) ->
  (forall tag id cs, Forall P cs -> P (Element tag id cs)) ->
  forall n, P n.
Proof.
  intros Htext Helem.
  fix IH 1. intros [tag id cs | data]; [|apply Htext].
  apply Helem. induction cs as [|c cs IHcs]; constructor; [apply IH | exact IHcs].
Qed.

Lemma getElementById_element i tag id cs :
  getElementById i (Element tag id cs)
  = if has_id i id then Some (Element tag id cs) else first_by_id i cs.
Proof. reflexivity. Qed.

Lemma append_in_element i content tag id cs :
  append_in i content (Element tag id cs)
  = if has_id i id then Some (Element tag id (cs ++ [content]))
    else match append_in_first i content cs with
         | Some cs' => Some (Element tag id cs')
         | None => None
         end.
Proof. reflexivity. Qed.

Lemma count_elements_element tag id cs :
  count_elements (Element tag id cs) = S (count_all cs).
Proof. reflexivity. Qed.

Lemma first_by_id_cons i c rest :
  first_by_id i (c :: rest)
  = match getElementById i c with
    | Some e => Some e
    | None => first_by_id i rest
    end.
Proof. reflexivity. Qed.

Lemma append_in_first_cons i content c rest :
  append_in_first i content (c :: rest)
  = match append_in i content c with
    | Some c' => Some (c' :: rest)
    | None =>
        match append_in_first i content rest with
        | Some rest' => Some (c :: rest')
        | None => None
        end
    end.
Proof. reflexivity. Qed.

Lemma count_all_cons c rest :
  count_all (c :: rest) = (count_elements c + count_all rest)%nat.
Proof. reflexivity. Qed.

Lemma count_all_app xs ys : count_all (xs ++ ys) = (count_all xs + count_all ys)%nat.
Proof.
  induction xs as [|x xs IH]; [reflexivity|].
  change ((x :: xs) ++ ys) with (x :: (xs ++ ys)).
  rewrite !count_all_cons, IH. lia.
Qed.

Lemma append_in_first_spec i content l :
  Forall (append_in_correct i content) l ->
  (first_by_id i l = None -> append_in_first i content l = None)
  /\ (forall tag id cs,
        first_by_id i l = Some (Element tag id cs) ->
        exists l',
          append_in_first i content l = Some l'
          /\ first_by_id i l' = Some (Element tag id (cs ++ [content]))
          /\ count_all l' = (count_all l + count_elements content)%nat).
Proof.
  induction 1 as [|c rest [Hnone Hsome] _ [IHnone IHsome]].
  - split; [reflexivity | discriminate].
  - rewrite first_by_id_cons, append_in_first_cons. split.
    + destruct (getElementById i c) eqn:E; [discriminate|].
      intro Hrest. rewrite (Hnone eq_refl), (IHnone Hrest). reflexivity.
    + intros tag id cs.
      destruct (getElementById i c) as [e|] eqn:E.
      * intro He. injection He as ->.
        destruct (Hsome tag id cs eq_refl) as (c' & Happ & Hget & Hcount).
        exists (c' :: rest). rewrite Happ. split; [reflexivity|].
        rewrite first_by_id_cons, Hget, !count_all_cons.
        split; [reflexivity | lia].
      * intro Hrest. rewrite (Hnone eq_refl).
        destruct (IHsome tag id cs Hrest) as (rest' & Happ & Hget & Hcount).
        exists (c :: rest'). rewrite Happ. split; [reflexivity|].
        rewrite first_by_id_cons, E, Hget, !count_all_cons.
        split; [reflexivity | lia].
Qed.

Lemma append_in_spec i content n : append_in_correct i content n.
Proof.
  induction n as [data | tag id cs IH] using node_tree_ind.
  - split; [reflexivity | discriminate].
  - destruct (append_in_first_spec i content cs IH) as [Hnone Hsome].
    unfold append_in_correct.
    rewrite getElementById_element, append_in_element.
    destruct (has_id i id) eqn:Hid.
    + split; [discriminate|].
      intros tag' id' cs' H. injection H as <- <- <-.
      eexists. split; [reflexivity|].
      rewrite getElementById_element, Hid. split; [reflexivity|].
      rewrite !count_elements_element, count_all_app. simpl. lia.
    + split.
      * intro H. rewrite (Hnone H). reflexivity.
      * intros tag' id' cs' H.
        destruct (Hsome tag' id' cs' H) as (cs2 & Happ & Hget & Hcount).
        rewrite Happ. eexists. split; [reflexivity|].
        rewrite getElementById_element, Hid. split; [exact Hget|].
        rewrite !count_elements_element. lia.
Qed.




(** The text of the first paragraph: the shifted greeting ends in the
    character after the exclamation mark, a double quote. *)
Lemma shiftMessage_text :
  shiftMessage = literal "Hello, World! shifts to Ifmmp-!Xpsme" ++ quote.
Proof. reflexivity. Qed.

End ClientFacts.

(** ** The page server *)
Module ExpressFacts.
Import Express.

Local Open Scope string_scope.
Local Open Scope list_scope.

Lemma plain_segment_kept seg :
  plain_segment seg = true ->
  String.eqb seg "" = false /\ String.eqb seg "." = false
  /\ String.eqb seg ".." = false /\ is_dotfile seg = false.
Proof.
  destruct seg as [|c rest]; [discriminate|].
  unfold plain_segment. intro H. apply negb_true_iff in H.
  assert (Hne : c <> "."%char) by (apply Ascii.eqb_neq; exact H).
  repeat split.
  - apply String.eqb_neq. congruence.
  - apply String.eqb_neq. congruence.
  - unfold is_dotfile.
    destruct c as [[] [] [] [] [] [] [] []]; try reflexivity.
    exfalso. apply Hne. reflexivity.
Qed.

Lemma normalize_from_plain parts : forall stack,
  forallb plain_segment parts = true ->
  normalize_from stack parts = Some (rev stack ++ parts).
Proof.
  induction parts as [|seg rest IH]; intros stack H.
  - simpl. rewrite app_nil_r. reflexivity.
  - simpl in H. apply andb_prop in H as [Hseg Hrest].
    destruct (plain_segment_kept seg Hseg) as (E1 & E2 & E3 & _).
    simpl. rewrite E1, E2, E3, (IH (seg :: stack) Hrest).
    simpl. rewrite <- app_assoc. reflexivity.
Qed.

Lemma normalize_plain parts :
  forallb plain_segment parts = true -> normalize parts = Some parts.
Proof. intro H. apply (normalize_from_plain parts [] H). Qed.

Lemma no_dotfile_plain parts :
  forallb plain_segment parts = true -> existsb is_dotfile parts = false.
Proof.
  induction parts as [|seg rest IH]; [reflexivity|].
  simpl. intro H. apply andb_prop in H as [Hseg Hrest].
  destruct (plain_segment_kept seg Hseg) as (_ & _ & _ & E).
  rewrite E, (IH Hrest). reflexivity.
Qed.

Lemma no_trailing_slash_plain parts :
  forallb plain_segment parts = true -> has_trailing_slash parts = false.
Proof.
  intro H. unfold has_trailing_slash.
  destruct (rev parts) as [|last_seg front] eqn:E; [reflexivity|].
  assert (Hin : In last_seg parts).
  { apply in_rev. rewrite E. left. reflexivity. }
  rewrite forallb_forall in H.
  apply (plain_segment_kept last_seg (H last_seg Hin)).
Qed.

Lemma last_segment_in (seg : string) (rest : list string) :
  In (last (seg :: rest) "") (seg :: rest).
Proof.
  assert (H : seg :: rest <> []) by discriminate.
  rewrite (app_removelast_last "" H) at 2.
  apply in_or_app. right. left. reflexivity.
Qed.

Lemma normal_segment_kept seg :
  normal_segment seg = true ->
  String.eqb seg "" = false /\ String.eqb seg "." = false
  /\ String.eqb seg ".." = false.
Proof.
  unfold normal_segment. intro H.
  apply andb_prop in H as [H H3]. apply andb_prop in H as [H1 H2].
  apply negb_true_iff in H1, H2, H3. repeat split; assumption.
Qed.

Lemma normalize_from_normal parts : forall stack,
  forallb normal_segment parts = true ->
  normalize_from stack parts = Some (rev stack ++ parts).
Proof.
  induction parts as [|seg rest IH]; intros stack H.
  - simpl. rewrite app_nil_r. reflexivity.
  - simpl in H. apply andb_prop in H as [Hseg Hrest].
    destruct (normal_segment_kept seg Hseg) as (E1 & E2 & E3).
    simpl. rewrite E1, E2, E3, (IH (seg :: stack) Hrest).
    simpl. rewrite <- app_assoc. reflexivity.
Qed.

Lemma no_trailing_slash_normal parts :
  forallb normal_segment parts = true -> has_trailing_slash parts = false.
Proof.
  intro H. unfold has_trailing_slash.
  destruct (rev parts) as [|last_seg front] eqn:E; [reflexivity|].
  assert (Hin : In last_seg parts).
  { apply in_rev. rewrite E. left. reflexivity. }
  rewrite forallb_forall in H.
  apply (normal_segment_kept last_seg (H last_seg Hin)).
Qed.

Lemma last_normal parts :
  forallb normal_segment parts = true -> String.eqb (last parts "") "." = false.
Proof.
  intro H. destruct parts as [|seg rest]; [reflexivity|].
  pose proof (last_segment_in seg rest) as Hin.
  rewrite forallb_forall in H.
  apply (normal_segment_kept _ (H _ Hin)).
Qed.

(** A normalised path whose last segment is no dotfile is not refused. *)
Lemma not_refused parts :
  forallb normal_segment parts = true ->
  is_dotfile (last parts "") = false ->
  existsb is_dotfile parts && starts_with_dot (last_part parts parts) = false.
Proof.
  intros Hn Hlast. unfold last_part.
  rewrite (no_trailing_slash_normal parts Hn).
  pose proof (last_normal parts Hn) as Hdot.
  destruct (last parts "") as [|c [|c' tl]] eqn:E.
  - apply andb_false_r.
  - assert (Hc : c <> "."%char).
    { intros ->. discriminate Hdot. }
    replace (starts_with_dot (String c "")) with false; [apply andb_false_r|].
    unfold starts_with_dot.
    destruct c as [[] [] [] [] [] [] [] []]; try reflexivity.
    exfalso. apply Hc. reflexivity.
  - change (starts_with_dot (String c (String c' tl)))
      with (is_dotfile (String c (String c' tl))).
    rewrite Hlast. apply andb_false_r.
Qed.

(** What the static layer answers to a GET below [/public] whose
    remaining path is normalised and does not end in a dotfile. *)
Lemma serve_static_normal env original rest :
  forallb normal_segment rest = true ->
  is_dotfile (last rest "") = false ->
  serve_static ["public"] env
    {| req_method := GET; originalUrl := original; url := rest |}
  = match fs env ("public" :: rest) with
    | Some (File content) => Some (SendFile ("public" :: rest) content)
    | Some Directory => Some (Redirect (original ++ [""]))
    | None => None
    end.
Proof.
  intros Hn Hlast. unfold serve_static. cbn [req_method url originalUrl].
  unfold normalize. rewrite (normalize_from_normal rest [] Hn).
  change (rev [] ++ rest) with rest.
  rewrite (not_refused rest Hn Hlast), (no_trailing_slash_normal rest Hn).
  reflexivity.
Qed.

Lemma serve_public_normal env rest :
  forallb normal_segment rest = true ->
  is_dotfile (last rest "") = false ->
  serve env (request GET ("public" :: rest))
  = match fs env ("public" :: rest) with
    | Some (File content) => SendFile ("public" :: rest) content
    | Some Directory => Redirect ("public" :: rest ++ [""])
    | None => render ["public"; "views"] "index" [] env
    end.
Proof.
  intros Hn Hlast. unfold serve, app, request, dispatch.
  cbn [dispatch_from matches handle route_methods use_all use get_all morgan
       url req_method originalUrl under_mount].
  change (to_lower "public" =? to_lower (mount_segment "/public")) with true.
  cbv iota. rewrite (serve_static_normal env ("public" :: rest) rest Hn Hlast).
  destruct (fs env ("public" :: rest)) as [[content|]|]; reflexivity.
Qed.

(** What the static layer answers to a GET below [/public] whose
    remaining segments are plain. *)
Lemma serve_static_plain env original rest :
  forallb plain_segment rest = true ->
  serve_static ["public"] env
    {| req_method := GET; originalUrl := original; url := rest |}
  = match fs env ("public" :: rest) with
    | Some (File content) => Some (SendFile ("public" :: rest) content)
    | Some Directory => Some (Redirect (original ++ [""]))
    | None => None
    end.
Proof.
  intro H. unfold serve_static. cbn [req_method url originalUrl].
  rewrite (normalize_plain rest H), (no_dotfile_plain rest H),
    (no_trailing_slash_plain rest H).
  reflexivity.
Qed.

Lemma serve_public env rest :
  forallb plain_segment rest = true ->
  serve env (request GET ("public" :: rest))
  = match fs env ("public" :: rest) with
    | Some (File content) => SendFile ("public" :: rest) content
    | Some Directory => Redirect ("public" :: rest ++ [""])
    | None => render ["public"; "views"] "index" [] env
    end.
Proof.
  intro H. unfold serve, app, request, dispatch.
  cbn [dispatch_from matches handle route_methods use_all use get_all morgan
       url req_method originalUrl under_mount].
  change (to_lower "public" =? to_lower (mount_segment "/public")) with true.
  cbv iota. rewrite (serve_static_plain env ("public" :: rest) rest H).
  destruct (fs env ("public" :: rest)) as [[content|]|]; reflexivity.
Qed.

Lemma serve_outside_public env m path :
  under_mount "/public" path = None ->
  serve env (request m path)
  = match m with
    | GET | HEAD => render ["public"; "views"] "index" [] env
    | OPTIONS => Allowed [GET; HEAD]
    | _ => NotFound
    end.
Proof.
  intro H. unfold serve, app, request, dispatch.
  cbn [dispatch_from matches handle route_methods use_all use get_all morgan
       url req_method originalUrl catch_all].
  rewrite H. destruct m; reflexivity.
Qed.

Lemma render_index env template html :
  fs env ["public"; "views"; "index.html"] = Some (File template) ->
  engine env template [] = Some html ->
  render ["public"; "views"] "index" [] env = Rendered "index" [] html.
Proof.
  intros Hview Hrender. unfold render, lookup_view.
  change (["public"; "views"] ++ [("index" ++ ".html")%string])
    with ["public"; "views"; "index.html"].
  rewrite Hview, Hrender. reflexivity.
Qed.

(** C2, as stated, fails for methods other than GET and HEAD: the
    handler is registered with [app.get], and a POST to any path is
    answered with 404 although the template is there. *)
Lemma catch_all_post_not_found :
  fs example_env ["public"; "views"; "index.html"] = Some (File example_template)
  /\ serve example_env (request POST ["anything"; "at"; "all"]) = NotFound
  /\ status (serve example_env (request POST ["anything"; "at"; "all"])) <> 200%Z.
Proof. repeat split. intro H. vm_compute in H. discriminate H. Qed.

(** C2, amended: a GET request of any path outside [/public] is answered
    by the catch-all handler, which ignores the path and renders the
    single template [index] with no template variables: status 200,
    content type text/html, the body the engine's rendering of the
    template (given that the view file exists and the engine renders
    it). *)
Theorem catch_all_renders_index :
  forall (env : environment) (path : list string) template html,
    under_mount "/public" path = None ->
    fs env ["public"; "views"; "index.html"] = Some (File template) ->
    engine env template [] = Some html ->
    serve env (request GET path) = Rendered "index" [] html
    /\ status (serve env (request GET path)) = 200%Z
    /\ content_type env (serve env (request GET path)) = "text/html"
    /\ body (serve env (request GET path)) = Some html
    /\ (forall req, catch_all env req = Some (Rendered "index" [] html)).
Proof.
  intros env path template html Hout Hview Hrender.
  rewrite (serve_outside_public env GET path Hout).
  unfold catch_all.
  rewrite (render_index env template html Hview Hrender).
  repeat split.
Qed.

Lemma catch_all_renders_index_witness :
  under_mount "/public" ["anything"; "at"; "all"] = None
  /\ serve example_env (request GET ["anything"; "at"; "all"])
     = Rendered "index" [] example_template.
Proof.
  split; [reflexivity|].
  exact (proj1 (catch_all_renders_index example_env ["anything"; "at"; "all"]
                  example_template example_template eq_refl eq_refl eq_refl)).
Defined.

(** C8, as stated, fails for a missing file: the static layer passes the
    request on and the catch-all route answers it with the rendered
    template and status 200, not with 404. *)
Lemma static_missing_not_404 :
  fs example_env ["public"; "missing.js"] = None
  /\ serve example_env (request GET ["public"; "missing.js"])
     = Rendered "index" [] example_template
  /\ status (serve example_env (request GET ["public"; "missing.js"])) <> 404%Z.
Proof. repeat split. intro H. vm_compute in H. discriminate H. Qed.

(** C8, amended: a GET request for a path under [/public] that is
    written without empty, [.] or [..] segments and whose last segment
    is no dotfile returns the bytes of the corresponding file under the
    static directory when that file exists; when nothing exists there
    the request falls through to the catch-all route and is answered
    with the rendered template (status 200, given that the view exists
    and renders); a directory is answered with a redirect to the same
    path with a trailing slash, never with a listing. *)
Theorem static_serves_files :
  forall (env : environment) (rest : list string),
    forallb normal_segment rest = true ->
    is_dotfile (last rest "") = false ->
    (forall content,
        fs env ("public" :: rest) = Some (File content) ->
        serve env (request GET ("public" :: rest)) = SendFile ("public" :: rest) content
        /\ status (serve env (request GET ("public" :: rest))) = 200%Z
        /\ body (serve env (request GET ("public" :: rest))) = Some content)
    /\ (fs env ("public" :: rest) = None ->
        serve env (request GET ("public" :: rest))
        = render ["public"; "views"] "index" [] env
        /\ forall template html,
            fs env ["public"; "views"; "index.html"] = Some (File template) ->
            engine env template [] = Some html ->
            serve env (request GET ("public" :: rest)) = Rendered "index" [] html
            /\ status (serve env (request GET ("public" :: rest))) = 200%Z)
    /\ (fs env ("public" :: rest) = Some Directory ->
        serve env (request GET ("public" :: rest)) = Redirect ("public" :: rest ++ [""])
        /\ body (serve env (request GET ("public" :: rest))) = None).
Proof.
  intros env rest Hnormal Hlast.
  rewrite (serve_public_normal env rest Hnormal Hlast).
  split; [|split].
  - intros content Hfile. rewrite Hfile. repeat split.
  - intro Hmissing. rewrite Hmissing. split; [reflexivity|].
    intros template html Hview Hrender.
    rewrite (render_index env template html Hview Hrender). split; reflexivity.
  - intro Hdir. rewrite Hdir. split; reflexivity.
Qed.

Lemma static_serves_files_witness :
  forallb normal_segment ["js"; "main.js"] = true
  /\ is_dotfile (last ["js"; "main.js"] "") = false
  /\ fs example_env ["public"; "js"; "main.js"] = Some (File example_bundle)
  /\ serve example_env (request GET ["public"; "js"; "main.js"])
     = SendFile ["public"; "js"; "main.js"] example_bundle.
Proof.
  split; [reflexivity|]. split; [reflexivity|]. split; [reflexivity|].
  exact (proj1 (proj1 (static_serves_files example_env ["js"; "main.js"]
                         eq_refl eq_refl)
                  example_bundle eq_refl)).
Defined.

End ExpressFacts.

(** ** More on [sum] *)
Module SumMore.
Import JSNumber Sum JSNumberFacts SumFacts.

Lemma add_comm (a b : number) : add a b = add b a.
Proof.
  unfold add, SFadd.
  destruct a as [[|]|[|]| |sa ma ea], b as [[|]|[|]| |sb mb eb]; try reflexivity.
  rewrite (Z.min_comm eb ea). f_equal. apply Z.add_comm.
Qed.

Lemma add_zero_l (a : number) : a <> neg_zero -> add pos_zero a = a.
Proof.
  intro H. destruct a as [[|]| | |]; try reflexivity. exfalso. apply H. reflexivity.
Qed.

(** X1: two arguments can be swapped, whatever numbers they are (NaN,
    infinities and zeros of either sign included): [sum(a, b)] is
    [sum(b, a)]. *)
Theorem sum_pair_swap : forall a b : number, sum [a; b] = sum [b; a].
Proof.
  intros a b. rewrite !sum_fold. cbn [fold_left].
  destruct a as [[|]|[|]| |sa ma ea], b as [[|]|[|]| |sb mb eb]; try reflexivity.
  change (add pos_zero (S754_finite sa ma ea)) with (S754_finite sa ma ea).
  change (add pos_zero (S754_finite sb mb eb)) with (S754_finite sb mb eb).
  apply add_comm.
Qed.

Lemma fold_add_NaN args : fold_left add args NaN = NaN.
Proof. induction args as [|b args IH]; [reflexivity|]. simpl. exact IH. Qed.

Lemma add_NaN_r a : add a NaN = NaN.
Proof. destruct a as [[|]|[|]| |]; reflexivity. Qed.

(** X2: a NaN among the arguments makes the total NaN, wherever it
    stands. *)
Theorem sum_NaN : forall args : list number, In NaN args -> sum args = NaN.
Proof.
  intros args H. rewrite sum_fold. generalize pos_zero as acc.
  induction args as [|b args IH]; intro acc; [contradiction|].
  simpl. destruct H as [-> | H].
  - rewrite add_NaN_r. apply fold_add_NaN.
  - apply IH. exact H.
Qed.

Lemma sum_NaN_witness :
  In NaN [of_Z 1; NaN; of_Z 2] /\ sum [of_Z 1; NaN; of_Z 2] = NaN.
Proof.
  assert (H : In NaN [of_Z 1; NaN; of_Z 2]) by (right; left; reflexivity).
  split; [exact H | exact (sum_NaN [of_Z 1; NaN; of_Z 2] H)].
Defined.

Lemma integer_total_perm zs zs' :
  Permutation zs zs' -> integer_total zs = integer_total zs'.
Proof. induction 1; simpl; lia. Qed.

Lemma total_magnitude_perm zs zs' :
  Permutation zs zs' -> total_magnitude zs = total_magnitude zs'.
Proof. induction 1; simpl; lia. Qed.

(** X3: for integers whose magnitudes add up to at most
    [Number.MAX_SAFE_INTEGER] the total does not depend on the order of
    the arguments at all: any rearrangement gives the same number. *)
Theorem sum_permutation_safe_integers : forall zs zs' : list Z,
  Permutation zs zs' ->
  total_magnitude zs <= MAX_SAFE_INTEGER ->
  sum (List.map of_Z zs) = sum (List.map of_Z zs').
Proof.
  intros zs zs' Hp H.
  rewrite !sum_of_integers by (rewrite <- ?(total_magnitude_perm zs zs' Hp); exact H).
  rewrite (integer_total_perm zs zs' Hp). reflexivity.
Qed.

Lemma sum_permutation_safe_integers_witness :
  Permutation [7; -2; 345] [-2; 7; 345]
  /\ total_magnitude [7; -2; 345] <= MAX_SAFE_INTEGER
  /\ sum (List.map of_Z [7; -2; 345]) = sum (List.map of_Z [-2; 7; 345]).
Proof.
  assert (Hp : Permutation [7; -2; 345] [-2; 7; 345]) by apply perm_swap.
  assert (Hm : total_magnitude [7; -2; 345] <= MAX_SAFE_INTEGER)
    by (vm_compute; discriminate).
  split; [exact Hp|]. split; [exact Hm|].
  exact (sum_permutation_safe_integers [7; -2; 345] [-2; 7; 345] Hp Hm).
Defined.

End SumMore.

(** ** The sign of a zero total *)
Module ZeroSign.
Import JSNumber Sum JSNumberFacts SumFacts.

Lemma shr_1_half r : 0 <= shr_m r -> shr_m (shr_1 r) = shr_m r / 2.
Proof.
  destruct r as [m r s]. cbn [shr_m]. intro H.
  destruct m as [|[p|p|]|p]; cbn [shr_1 shr_m]; try lia.
  - reflexivity.
  - rewrite <- Z.div2_div. reflexivity.
  - rewrite <- Z.div2_div. reflexivity.
  - reflexivity.
Qed.

Lemma iter_shr_1_quotient n : forall r,
  0 <= shr_m r -> shr_m (Nat.iter n shr_1 r) = shr_m r / 2 ^ Z.of_nat n.
Proof.
  induction n as [|n IH]; intros r H.
  - simpl. rewrite Z.div_1_r. reflexivity.
  - rewrite Nat.iter_succ, shr_1_half.
    + rewrite IH by exact H. rewrite Nat2Z.inj_succ, Z.pow_succ_r by lia.
      rewrite Z.div_div by lia. f_equal. lia.
    + rewrite IH by exact H. apply Z.div_pos; [exact H | lia].
Qed.

(** Shifting a mantissa to its format never shifts it away. *)
Lemma shr_fexp_positive m e :
  -1074 <= e ->
  0 < shr_m (fst (shr_fexp prec emax (Zpos m) e loc_Exact))
  /\ -1074 <= snd (shr_fexp prec emax (Zpos m) e loc_Exact).
Proof.
  intro He. unfold shr_fexp, shr. cbn [Zdigits2 shr_record_of_loc].
  pose proof (digits2_pos_bounds m) as [Hlo _].
  set (d := Zpos (digits2_pos m)) in *.
  assert (Hf : fexp prec emax (d + e) = Z.max (d + e - 53) (-1074)) by reflexivity.
  destruct (fexp prec emax (d + e) - e) as [|p|p] eqn:En; cbn [fst snd shr_m]; try lia.
  rewrite iter_pos_nat, iter_shr_1_quotient by (cbn [shr_m]; lia).
  cbn [shr_m]. rewrite positive_nat_Z.
  assert (Hp : Zpos p = d - 53) by lia.
  split; [|lia].
  apply Z.div_str_pos. split; [lia|].
  apply Z.le_trans with (2 ^ (d - 1)); [|exact Hlo].
  apply Z.pow_le_mono_r; lia.
Qed.

Lemma round_nearest_even_positive m l : 0 < m -> 0 < round_nearest_even m l.
Proof.
  intro H. unfold round_nearest_even.
  destruct l as [|[| |]]; try destruct (Z.even m); lia.
Qed.

Lemma binary_round_aux_nonzero s m e :
  -1074 <= e ->
  exponent_bounded (binary_round_aux prec emax s (Zpos m) e loc_Exact)
  /\ forall z, binary_round_aux prec emax s (Zpos m) e loc_Exact <> S754_zero z.
Proof.
  intro He. unfold binary_round_aux.
  destruct (shr_fexp_positive m e He) as [H1 H2].
  destruct (shr_fexp prec emax (Zpos m) e loc_Exact) as [mrs' e'].
  cbn [fst snd] in H1, H2.
  pose proof (round_nearest_even_positive (shr_m mrs') (loc_of_shr_record mrs') H1) as Hr.
  destruct (round_nearest_even (shr_m mrs') (loc_of_shr_record mrs')) as [|m1|m1]; try lia.
  destruct (shr_fexp_positive m1 e' H2) as [H3 H4].
  destruct (shr_fexp prec emax (Zpos m1) e' loc_Exact) as [mrs'' e''].
  cbn [fst snd] in H3, H4.
  destruct (shr_m mrs'') as [|m2|m2]; try lia.
  destruct (e'' <=? emax - prec); split; try exact H4; try exact I; intros z; discriminate.
Qed.

Lemma binary_round_nonzero s m e :
  -1074 <= e ->
  exponent_bounded (binary_round prec emax s m e)
  /\ forall z, binary_round prec emax s m e <> S754_zero z.
Proof.
  intro He. unfold binary_round.
  set (f := fexp prec emax (Zpos (digits2_pos m) + e)).
  assert (Hf : -1074 <= f) by (unfold f, fexp, emin, prec, emax; lia).
  assert (Hs : -1074 <= snd (shl_align m e f)).
  { unfold shl_align. destruct (f - e); cbn [snd]; lia. }
  destruct (shl_align m e f) as [mz ez]. cbn [snd] in Hs.
  apply binary_round_aux_nonzero. exact Hs.
Qed.

Lemma representable_bounded x : representable x -> exponent_bounded x.
Proof.
  unfold representable. destruct x as [| | |s m e]; try exact (fun _ => I).
  cbn [valid_binary exponent_bounded]. unfold bounded, canonical_mantissa. intro H.
  apply andb_prop in H as [H _]. apply Z.eqb_eq in H.
  unfold fexp, emin, prec, emax in H. lia.
Qed.

(** One step of the fold keeps the total away from negative zero. *)
Lemma add_keeps_sign x y :
  x <> neg_zero -> exponent_bounded x -> exponent_bounded y ->
  add x y <> neg_zero /\ exponent_bounded (add x y).
Proof.
  intros Hx Bx By. unfold add, neg_zero in *.
  destruct x as [[|]|[|]| |sx mx ex], y as [[|]|[|]| |sy my ey];
    cbn [SFadd]; try (split; [discriminate | exact I]);
    try (split; [discriminate | assumption]);
    try (exfalso; apply Hx; reflexivity).
  cbn [exponent_bounded] in Bx, By.
  unfold binary_normalize.
  destruct (_ + _) as [|m|m].
  - split; [discriminate | exact I].
  - destruct (binary_round_nonzero false m (Z.min ex ey) ltac:(lia)) as [Hb Hz].
    split; [apply Hz | exact Hb].
  - destruct (binary_round_nonzero true m (Z.min ex ey) ltac:(lia)) as [Hb Hz].
    split; [apply Hz | exact Hb].
Qed.

(** X4: on representable numbers the total is never negative zero:
    the fold starts at positive zero, and no addition of the fold gives
    negative zero from a total that is not. *)
Theorem sum_never_negative_zero : forall args : list number,
  Forall representable args -> sum args <> neg_zero.
Proof.
  intros args H. rewrite sum_fold.
  assert (Hgo : forall acc, acc <> neg_zero -> exponent_bounded acc ->
                            fold_left add args acc <> neg_zero).
  { induction H as [|b args Hb _ IH]; intros acc Ha Ba; [exact Ha|].
    cbn [fold_left].
    destruct (add_keeps_sign acc b Ha Ba (representable_bounded b Hb)) as [Hn Hbnd].
    apply IH; assumption. }
  apply Hgo; [discriminate | exact I].
Qed.

Lemma sum_never_negative_zero_witness :
  Forall representable [neg_zero; of_Z (-5); of_Z 5; neg_zero]
  /\ sum [neg_zero; of_Z (-5); of_Z 5; neg_zero] <> neg_zero.
Proof.
  assert (H : Forall representable [neg_zero; of_Z (-5); of_Z 5; neg_zero])
    by (repeat constructor).
  split; [exact H | exact (sum_never_negative_zero _ H)].
Defined.

End ZeroSign.

(** ** More on [shift] *)
Module ShiftMore.
Import JSNumber JSString Shift JSNumberFacts ShiftFacts.

Lemma ToUint16_range x : is_code_unit (ToUint16 x).
Proof. unfold is_code_unit, ToUint16. apply Z.mod_pos_bound. lia. Qed.

(** X5: whatever the input, every element of [shift(s)] is a 16-bit
    code unit. *)
Theorem shift_well_formed : forall s : js_string, well_formed (shift s).
Proof.
  intro s. rewrite shift_concat. unfold well_formed.
  induction (spread s) as [|ch chars IH]; [constructor|].
  cbn [List.map List.concat]. apply Forall_app. split; [|exact IH].
  unfold shift_char, fromCharCode. constructor; [apply ToUint16_range | constructor].
Qed.

Lemma shift_length_chars s : List.length (shift s) = List.length (spread s).
Proof.
  rewrite shift_concat.
  induction (spread s) as [|ch chars IH]; [reflexivity|].
  cbn [List.map List.concat]. rewrite length_app, IH. reflexivity.
Qed.

Lemma spread_length_pairs (s : list code_unit) :
  List.length s = (List.length (spread s) + surrogate_pairs s)%nat.
Proof.
  unfold surrogate_pairs.
  induction s as [| u | u v rest E IH | u v rest E IH] using spread_ind.
  - reflexivity.
  - reflexivity.
  - rewrite spread_pair by exact E. cbn [filter].
    change ((2 <=? List.length [u; v])%nat) with true. cbv iota.
    cbn [List.length]. rewrite IH. lia.
  - rewrite spread_single by exact E. cbn [filter].
    change ((2 <=? List.length [u])%nat) with false. cbv iota.
    cbn [List.length] in IH |- *. rewrite IH. lia.
Qed.

(** X6: [shift(s)] is shorter than [s] by exactly the number of
    surrogate pairs of [s]; it is never longer. *)
Theorem shift_length_pairs : forall s : js_string,
  List.length s = (List.length (shift s) + surrogate_pairs s)%nat
  /\ (List.length (shift s) <= List.length s)%nat.
Proof.
  intro s. pose proof (spread_length_pairs s) as H.
  rewrite shift_length_chars. lia.
Qed.

Lemma spread_app (s : list code_unit) : forall t,
  seam_pair s t = false -> spread (s ++ t) = spread s ++ spread t.
Proof.
  unfold seam_pair.
  induction s as [| u | u v rest E IH | u v rest E IH] using spread_ind; intros t H.
  - reflexivity.
  - destruct t as [|v t]; [reflexivity|].
    simpl in H. change ([u] ++ v :: t) with (u :: v :: t).
    rewrite spread_single by exact H. reflexivity.
  - change ((u :: v :: rest) ++ t) with (u :: v :: (rest ++ t)).
    rewrite !spread_pair by exact E.
    rewrite IH; [reflexivity|].
    destruct rest as [|w rest]; [reflexivity | exact H].
  - change ((u :: v :: rest) ++ t) with (u :: (v :: rest) ++ t).
    change ((v :: rest) ++ t) with (v :: (rest ++ t)) at 1.
    rewrite !spread_single by exact E.
    change (v :: (rest ++ t)) with ((v :: rest) ++ t).
    rewrite IH; [reflexivity | exact H].
Qed.

(** X7: [shift] distributes over concatenation unless the seam joins a
    leading surrogate ending [s] to a trailing surrogate starting [t]. *)
Theorem shift_app : forall s t : js_string,
  seam_pair s t = false -> shift (s ++ t) = shift s ++ shift t.
Proof.
  intros s t H. rewrite !shift_concat, (spread_app s t H), map_app.
  apply concat_app.
Qed.

Lemma shift_app_witness :
  seam_pair (literal "Hello, ") (literal "World!") = false
  /\ shift (literal "Hello, " ++ literal "World!")
     = shift (literal "Hello, ") ++ shift (literal "World!").
Proof.
  split; [reflexivity|].
  exact (shift_app (literal "Hello, ") (literal "World!") eq_refl).
Defined.

(** X9: spreading a string and joining the characters on the empty
    separator gives the string back: the iteration, which [shift] maps
    over, drops and repeats no code unit. *)
Theorem spread_join : forall s : js_string,
  join (literal "") (spread s) = s.
Proof.
  intro s. change (literal "") with (@nil code_unit). rewrite join_empty.
  induction s as [| u | u v rest E IH | u v rest E IH] using spread_ind.
  - reflexivity.
  - reflexivity.
  - rewrite spread_pair by exact E. cbn [List.concat]. rewrite IH. reflexivity.
  - rewrite spread_single by exact E. cbn [List.concat]. rewrite IH. reflexivity.
Qed.

Lemma succ_unit_inj u v :
  is_code_unit u -> is_code_unit v ->
  (u + 1) mod 65536 = (v + 1) mod 65536 -> u = v.
Proof.
  unfold is_code_unit. intros Hu Hv H.
  destruct (Z.eq_dec u 65535) as [->|Hu'], (Z.eq_dec v 65535) as [->|Hv'].
  - reflexivity.
  - rewrite (Z.mod_small (v + 1)) in H by lia. change ((65535 + 1) mod 65536) with 0 in H. lia.
  - rewrite (Z.mod_small (u + 1)) in H by lia. change ((65535 + 1) mod 65536) with 0 in H. lia.
  - rewrite !Z.mod_small in H by lia. lia.
Qed.

Lemma shift_no_pairs (s : list code_unit) :
  well_formed s -> surrogate_pairs s = 0%nat ->
  shift s = List.map (fun u => (u + 1) mod 65536) s.
Proof.
  intros Hwf Hp.
  assert (Hs : spread s = List.map (fun u => [u]) s).
  { clear Hwf. revert Hp. unfold surrogate_pairs.
    induction s as [| u | u v rest E IH | u v rest E IH] using spread_ind; intro Hp.
    - reflexivity.
    - reflexivity.
    - rewrite spread_pair in Hp by exact E. cbn [filter] in Hp.
      change ((2 <=? List.length [u; v])%nat) with true in Hp. discriminate Hp.
    - rewrite spread_single in * by exact E. cbn [filter] in Hp.
      change ((2 <=? List.length [u])%nat) with false in Hp. cbv iota in Hp.
      rewrite IH by exact Hp. reflexivity. }
  rewrite shift_units by exact Hwf. rewrite Hs, map_map. reflexivity.
Qed.

(** X8: on strings of code units without surrogate pairs [shift] loses
    nothing: two such strings with the same shift are equal. *)
Theorem shift_injective_no_pairs : forall s t : js_string,
  well_formed s -> well_formed t ->
  surrogate_pairs s = 0%nat -> surrogate_pairs t = 0%nat ->
  shift s = shift t -> s = t.
Proof.
  intros s t Hs Ht Ps Pt.
  rewrite (shift_no_pairs s Hs Ps), (shift_no_pairs t Ht Pt).
  clear Ps Pt. revert t Ht. unfold well_formed in *.
  induction Hs as [|u s Hu Hs IH]; intros t Ht H; destruct Ht as [|v t Hv Ht];
    try discriminate H; [reflexivity|].
  simpl in H. injection H as Huv Hrest.
  f_equal; [apply succ_unit_inj; assumption | apply IH; assumption].
Qed.

Lemma shift_injective_no_pairs_witness :
  well_formed [65535; 97] /\ surrogate_pairs [65535; 97] = 0%nat
  /\ shift [65535; 97] = shift [65535; 97]
  /\ [65535; 97] = [65535; 97].
Proof.
  assert (H : well_formed [65535; 97])
    by (repeat constructor; unfold is_code_unit; lia).
  split; [exact H|]. split; [reflexivity|]. split; [reflexivity|].
  exact (shift_injective_no_pairs [65535; 97] [65535; 97] H H eq_refl eq_refl eq_refl).
Defined.

End ShiftMore.

(** ** More on the client bootstrap *)
Module ClientMore.
Import JSNumber JSString DOM Client ClientFacts.

(** X10: on a page without the mount element [#app] the script changes
    nothing: both selections are empty and the document stays as it
    is. *)
Theorem bootstrap_without_mount :
  forall (number_to_string : number -> js_string) (document : node),
    getElementById "app" document = None ->
    bootstrap number_to_string document = document.
Proof.
  intros nts document H. unfold bootstrap, append.
  destruct (append_in_spec "app" shiftElement document) as [Hnone _].
  rewrite (Hnone H).
  destruct (append_in_spec "app" (sumElement nts) document) as [Hnone' _].
  rewrite (Hnone' H). reflexivity.
Qed.

Lemma bootstrap_without_mount_witness :
  getElementById "app" (Element "html" None [Element "body" None []]) = None
  /\ bootstrap (fun _ => literal "n") (Element "html" None [Element "body" None []])
     = Element "html" None [Element "body" None []].
Proof.
  split; [reflexivity|].
  exact (bootstrap_without_mount (fun _ => literal "n")
           (Element "html" None [Element "body" None []]) eq_refl).
Defined.

Lemma first_by_id_app j xs ys :
  first_by_id j (xs ++ ys)
  = match first_by_id j xs with
    | Some e => Some e
    | None => first_by_id j ys
    end.
Proof.
  induction xs as [|x xs IH]; [reflexivity|].
  change ((x :: xs) ++ ys) with (x :: (xs ++ ys)).
  rewrite !first_by_id_cons, IH.
  destruct (getElementById j x); reflexivity.
Qed.

Lemma append_in_first_kept i j content l :
  Forall (lookup_kept i j content) l ->
  forall l', append_in_first i content l = Some l' ->
    option_map label (first_by_id j l') = option_map label (first_by_id j l).
Proof.
  induction 1 as [|c rest Hc _ IH]; intros l' H.
  - discriminate H.
  - rewrite append_in_first_cons in H.
    destruct (append_in i content c) as [c'|] eqn:Ec.
    + injection H as <-. rewrite !first_by_id_cons.
      specialize (Hc c' Ec).
      destruct (getElementById j c') as [e'|], (getElementById j c) as [e|];
        simpl in Hc; try discriminate Hc; [exact Hc | reflexivity].
    + destruct (append_in_first i content rest) as [rest'|] eqn:Er; [|discriminate H].
      injection H as <-. rewrite !first_by_id_cons.
      destruct (getElementById j c); [reflexivity | apply IH; reflexivity].
Qed.

Lemma append_in_kept i j content n :
  getElementById j content = None -> lookup_kept i j content n.
Proof.
  intro Hc.
  induction n as [data | tag id cs IH] using node_tree_ind; intros n' H.
  - discriminate H.
  - rewrite append_in_element in H. rewrite getElementById_element.
    destruct (has_id i id) eqn:Hi.
    + injection H as <-. rewrite getElementById_element.
      destruct (has_id j id); [reflexivity|].
      rewrite first_by_id_app. destruct (first_by_id j cs); [reflexivity|].
      rewrite first_by_id_cons, Hc. reflexivity.
    + destruct (append_in_first i content cs) as [cs'|] eqn:Ecs; [|discriminate H].
      injection H as <-. rewrite getElementById_element.
      destruct (has_id j id); [reflexivity|].
      apply (append_in_first_kept i j content cs IH cs' Ecs).
Qed.

Lemma append_kept i j content document :
  getElementById j content = None ->
  option_map label (getElementById j (append i content document))
  = option_map label (getElementById j document).
Proof.
  intro Hc. unfold append.
  destruct (append_in i content document) as [d'|] eqn:E; [|reflexivity].
  apply (append_in_kept i j content document Hc d' E).
Qed.

(** X11: the script disturbs no lookup by id: for every id, the element
    found after the script has the tag and id of the element found
    before, and an id that was absent stays absent (the new paragraphs
    carry no id). *)
Theorem bootstrap_keeps_lookups :
  forall (number_to_string : number -> js_string) (document : node) (j : string),
    option_map label (getElementById j (bootstrap number_to_string document))
    = option_map label (getElementById j document).
Proof.
  intros nts document j. unfold bootstrap.
  rewrite !append_kept by reflexivity. reflexivity.
Qed.

End ClientMore.

(** ** More on the page server *)
Module ExpressMore.
Import Express ExpressFacts.
Local Open Scope string_scope.
Local Open Scope list_scope.

Lemma serve_cases env req :
  serve env req
  = match static_answer env req with
    | Some r => r
    | None =>
        match req_method req with
        | GET | HEAD => render ["public"; "views"] "index" [] env
        | OPTIONS => Allowed [GET; HEAD]
        | _ => NotFound
        end
    end.
Proof.
  unfold serve, app, dispatch, static_answer.
  cbn [dispatch_from matches handle route_methods use_all use get_all morgan catch_all].
  destruct (under_mount "/public" (url req)) as [rest|].
  - destruct (serve_static ["public"] env _) as [r|]; [reflexivity|].
    destruct (req_method req); reflexivity.
  - destruct (req_method req); reflexivity.
Qed.

Lemma static_answer_methods env req :
  req_method req <> GET -> req_method req <> HEAD -> static_answer env req = None.
Proof.
  intros Hg Hh. unfold static_answer, serve_static.
  destruct (under_mount "/public" (url req)); [|reflexivity].
  cbn [req_method]. destruct (req_method req); congruence.
Qed.

(** X12: requests of other methods than GET and HEAD reach neither the
    static files nor the page, on any path: POST, PUT, DELETE and PATCH
    get 404, and OPTIONS gets the router's automatic answer listing GET
    and HEAD. *)
Theorem other_methods_unanswered : forall (env : environment) (path : list string),
  serve env (request POST path) = NotFound
  /\ serve env (request PUT path) = NotFound
  /\ serve env (request DELETE path) = NotFound
  /\ serve env (request PATCH path) = NotFound
  /\ serve env (request OPTIONS path) = Allowed [GET; HEAD].
Proof.
  intros env path.
  repeat split; rewrite serve_cases, static_answer_methods; try reflexivity;
    cbn [request req_method]; discriminate.
Qed.

(** X13: a HEAD request is answered like the GET request of the same
    path. *)
Theorem head_as_get : forall (env : environment) (path : list string),
  serve env (request HEAD path) = serve env (request GET path).
Proof.
  intros env path. rewrite !serve_cases. unfold static_answer, request.
  cbn [url req_method originalUrl].
  destruct (under_mount "/public" path); reflexivity.
Qed.

Lemma normalize_from_clean segs : forall stack parts,
  Forall (fun seg => seg <> "" /\ seg <> "." /\ seg <> "..") stack ->
  normalize_from stack segs = Some parts ->
  Forall (fun seg => seg <> "" /\ seg <> "." /\ seg <> "..") parts.
Proof.
  induction segs as [|seg rest IH]; intros stack parts Hs H; simpl in H.
  - injection H as <-. apply Forall_rev. exact Hs.
  - destruct (String.eqb_spec seg ""); [apply (IH stack parts Hs H)|].
    destruct (String.eqb_spec seg "."); [apply (IH stack parts Hs H)|].
    destruct (String.eqb_spec seg "..").
    + destruct stack as [|top stack']; [discriminate H|].
      apply (IH stack' parts); [inversion Hs; assumption | exact H].
    + apply (IH (seg :: stack) parts); [constructor; auto | exact H].
Qed.

Lemma clean_normal parts :
  Forall (fun seg => seg <> "" /\ seg <> "." /\ seg <> "..") parts ->
  forallb normal_segment parts = true.
Proof.
  intro H. apply forallb_forall. rewrite Forall_forall in H.
  intros seg Hin. destruct (H seg Hin) as (H1 & H2 & H3).
  unfold normal_segment.
  apply String.eqb_neq in H1, H2, H3. rewrite H1, H2, H3. reflexivity.
Qed.

Lemma dotfile_starts_with_dot part :
  is_dotfile part = true -> starts_with_dot part = true.
Proof.
  destruct part as [|c tl]; [discriminate|].
  destruct c as [[] [] [] [] [] [] [] []]; try discriminate.
  intros _. reflexivity.
Qed.

(** A path that is not refused does not end in a dotfile. *)
Lemma passed_last parts :
  existsb is_dotfile parts && starts_with_dot (last parts "") = false ->
  is_dotfile (last parts "") = false.
Proof.
  intro H. destruct (is_dotfile (last parts "")) eqn:E; [|reflexivity].
  destruct parts as [|seg rest]; [discriminate E|].
  rewrite (dotfile_starts_with_dot _ E), andb_true_r in H.
  assert (Hex : existsb is_dotfile (seg :: rest) = true).
  { apply existsb_exists. exists (last (seg :: rest) "").
    split; [apply last_segment_in | exact E]. }
  congruence.
Qed.

Lemma serve_static_sends env req r :
  serve_static ["public"] env req = Some r ->
  (exists location, r = Redirect location)
  \/ (exists tail content,
        r = SendFile ("public" :: tail) content
        /\ fs env ("public" :: tail) = Some (File content)
        /\ forallb normal_segment tail = true
        /\ is_dotfile (last tail "") = false).
Proof.
  unfold serve_static.
  assert (Hgo :
    match normalize (url req) with
    | None => None
    | Some parts =>
        if existsb is_dotfile parts && starts_with_dot (last_part (url req) parts)
        then None
        else if has_trailing_slash (url req) then
          match fs env (["public"] ++ parts ++ ["index.html"]) with
          | Some (File content) =>
              Some (SendFile (["public"] ++ parts ++ ["index.html"]) content)
          | _ => None
          end
        else
          match fs env (["public"] ++ parts) with
          | Some (File content) => Some (SendFile (["public"] ++ parts) content)
          | Some Directory => Some (Redirect (originalUrl req ++ [""]))
          | None => None
          end
    end = Some r ->
    (exists location, r = Redirect location)
    \/ (exists tail content,
          r = SendFile ("public" :: tail) content
          /\ fs env ("public" :: tail) = Some (File content)
          /\ forallb normal_segment tail = true
          /\ is_dotfile (last tail "") = false)).
  { destruct (normalize (url req)) as [parts|] eqn:En; [|discriminate].
    pose proof (clean_normal parts
                  (normalize_from_clean (url req) [] parts (Forall_nil _) En)) as Hn.
    unfold last_part.
    destruct (has_trailing_slash (url req)).
    - rewrite andb_false_r.
      destruct (fs env (["public"] ++ parts ++ ["index.html"])) as [[content|]|] eqn:Ef;
        try discriminate.
      intro H. injection H as <-. right. exists (parts ++ ["index.html"]), content.
      split; [reflexivity|]. split; [exact Ef|]. split.
      + rewrite forallb_app, Hn. reflexivity.
      + rewrite last_last. reflexivity.
    - destruct (existsb is_dotfile parts && starts_with_dot (last parts "")) eqn:Ed;
        [discriminate|].
      destruct (fs env (["public"] ++ parts)) as [[content|]|] eqn:Ef; try discriminate.
      + intro H. injection H as <-. right. exists parts, content.
        split; [reflexivity|]. split; [exact Ef|].
        split; [exact Hn | exact (passed_last parts Ed)].
      + intro H. injection H as <-. left. eexists. reflexivity. }
  destruct (req_method req); try discriminate; exact Hgo.
Qed.

Lemma render_cases env :
  (exists html, render ["public"; "views"] "index" [] env = Rendered "index" [] html)
  \/ render ["public"; "views"] "index" [] env = ServerError.
Proof.
  unfold render.
  destruct (lookup_view ["public"; "views"] "index" env) as [template|];
    [|right; reflexivity].
  destruct (engine env template []) as [html|]; [left; exists html|right]; reflexivity.
Qed.

(** X15: every file the server sends, to any request, is a file below
    [public] with the content stored there, named by a path without
    empty or dot segments whose last segment is no dotfile: nothing
    outside the static directory is ever sent. *)
Theorem sent_files_are_public :
  forall (env : environment) (req : Request) path content,
    serve env req = SendFile path content ->
    exists tail,
      path = "public" :: tail
      /\ fs env path = Some (File content)
      /\ forallb normal_segment tail = true
      /\ is_dotfile (last tail "") = false.
Proof.
  intros env req path content H. rewrite serve_cases in H.
  destruct (static_answer env req) as [r|] eqn:Es.
  - subst r. unfold static_answer in Es.
    destruct (under_mount "/public" (url req)) as [rest|]; [|discriminate Es].
    destruct (serve_static_sends env _ _ Es)
      as [[location Hr] | (tail & c & Hr & Hfs & Hn & Hlast)].
    + discriminate Hr.
    + injection Hr as -> ->. exists tail. repeat split; assumption.
  - destruct (render_cases env) as [[html Hr] | Hr];
      destruct (req_method req); rewrite ?Hr in H; discriminate H.
Qed.

Lemma sent_files_are_public_witness :
  serve example_env (request GET ["public"; "js"; ".."; "js"; "main.js"])
  = SendFile ["public"; "js"; "main.js"] example_bundle
  /\ exists tail,
      ["public"; "js"; "main.js"] = "public" :: tail
      /\ fs example_env ["public"; "js"; "main.js"] = Some (File example_bundle)
      /\ forallb normal_segment tail = true
      /\ is_dotfile (last tail "") = false.
Proof.
  split; [reflexivity|].
  exact (sent_files_are_public example_env
           (request GET ["public"; "js"; ".."; "js"; "main.js"])
           ["public"; "js"; "main.js"] example_bundle eq_refl).
Defined.

(** X14: a GET request is never answered with 404: the answer is a file
    or the page (200), a redirect (301) or a server error (500). *)
Theorem get_never_404 : forall (env : environment) (path : list string),
  status (serve env (request GET path)) = 200
  \/ status (serve env (request GET path)) = 301
  \/ status (serve env (request GET path)) = 500.
Proof.
  intros env path. rewrite serve_cases.
  destruct (static_answer env (request GET path)) as [r|] eqn:Es.
  - unfold static_answer in Es.
    destruct (under_mount "/public" (url (request GET path))) as [rest|]; [|discriminate Es].
    destruct (serve_static_sends env _ _ Es) as [[location ->] | (tail & c & -> & _)].
    + right. left. reflexivity.
    + left. reflexivity.
  - cbn [request req_method].
    destruct (render_cases env) as [[html ->] | ->]; [left | right; right]; reflexivity.
Qed.



Lemma normalize_from_slash rest : forall stack,
  forallb plain_segment rest = true ->
  normalize_from stack (rest ++ [""]) = Some (rev stack ++ rest).
Proof.
  induction rest as [|seg rest IH]; intros stack H.
  - simpl. rewrite app_nil_r. reflexivity.
  - simpl in H. apply andb_prop in H as [Hseg Hrest].
    destruct (plain_segment_kept seg Hseg) as (E1 & E2 & E3 & _).
    change ((seg :: rest) ++ [""]) with (seg :: (rest ++ [""])).
    cbn [normalize_from]. rewrite E1, E2, E3, (IH (seg :: stack) Hrest).
    simpl. rewrite <- app_assoc. reflexivity.
Qed.

Lemma has_trailing_slash_app rest : has_trailing_slash (rest ++ [""]) = true.
Proof. unfold has_trailing_slash. rewrite rev_app_distr. reflexivity. Qed.

(** X17: a GET for a directory below [/public] named with a trailing
    slash sends the directory's [index.html] when that is a file (so
    [/public/views/] returns the view unrendered); otherwise the page is
    rendered. *)
Theorem directory_index :
  forall (env : environment) (rest : list string),
    forallb plain_segment rest = true ->
    serve env (request GET ("public" :: rest ++ [""]))
    = match fs env ("public" :: rest ++ ["index.html"]) with
      | Some (File content) => SendFile ("public" :: rest ++ ["index.html"]) content
      | _ => render ["public"; "views"] "index" [] env
      end.
Proof.
  intros env rest H. rewrite serve_cases. unfold static_answer, request.
  cbn [url req_method originalUrl under_mount].
  change (to_lower "public" =? to_lower (mount_segment "/public")) with true.
  cbv iota. unfold serve_static. cbn [req_method url]. unfold normalize.
  rewrite (normalize_from_slash rest [] H).
  change (rev [] ++ rest) with rest.
  unfold last_part. rewrite has_trailing_slash_app, andb_false_r.
  change (["public"] ++ rest ++ ["index.html"]) with ("public" :: rest ++ ["index.html"]).
  destruct (fs env ("public" :: rest ++ ["index.html"])) as [[content|]|]; reflexivity.
Qed.

Lemma directory_index_witness :
  forallb plain_segment ["views"] = true
  /\ serve example_env (request GET ["public"; "views"; ""])
     = SendFile ["public"; "views"; "index.html"] example_template.
Proof.
  split; [reflexivity|].
  exact (directory_index example_env ["views"] eq_refl).
Defined.

(** X18: a GET below [/public] whose path leaves the static directory
    through [..], or whose last segment is a dotfile, reads no file: the
    request falls through and the page is rendered. *)
Theorem refused_paths_render :
  forall (env : environment) (rest : list string),
    match normalize rest with
    | None => True
    | Some parts =>
        has_trailing_slash rest = false /\ is_dotfile (last parts "") = true
    end ->
    serve env (request GET ("public" :: rest))
    = render ["public"; "views"] "index" [] env.
Proof.
  intros env rest H. rewrite serve_cases. unfold static_answer, request.
  cbn [url req_method originalUrl under_mount].
  change (to_lower "public" =? to_lower (mount_segment "/public")) with true.
  cbv iota. unfold serve_static. cbn [req_method url].
  destruct (normalize rest) as [parts|]; [|reflexivity].
  destruct H as [Hslash Hlast]. unfold last_part. rewrite Hslash.
  destruct (existsb is_dotfile parts && starts_with_dot (last parts "")) eqn:E;
    [reflexivity|].
  rewrite (passed_last parts E) in Hlast. discriminate Hlast.
Qed.

Lemma refused_paths_render_witness :
  normalize ["js"; ".secret"] = Some ["js"; ".secret"]
  /\ has_trailing_slash ["js"; ".secret"] = false
  /\ is_dotfile (last ["js"; ".secret"] "") = true
  /\ serve example_env (request GET ["public"; "js"; ".secret"])
     = Rendered "index" [] example_template.
Proof.
  split; [reflexivity|]. split; [reflexivity|]. split; [reflexivity|].
  exact (refused_paths_render example_env ["js"; ".secret"] (conj eq_refl eq_refl)).
Defined.

Lemma to_lower_public_mount first :
  to_lower first = "public" -> forall rest, under_mount "/public" (first :: rest) = Some rest.
Proof. intros H rest. unfold under_mount. rewrite H. reflexivity. Qed.

(** X19: the mount path matches without regard to case: a GET whose
    first segment is [public] in any capitalisation is served the file
    below [public]. *)
Theorem mount_ignores_case :
  forall (env : environment) (first : string) (rest : list string) content,
    to_lower first = "public" ->
    forallb plain_segment rest = true ->
    fs env ("public" :: rest) = Some (File content) ->
    serve env (request GET (first :: rest)) = SendFile ("public" :: rest) content.
Proof.
  intros env first rest content Hfirst Hplain Hfile.
  rewrite serve_cases. unfold static_answer, request.
  cbn [url req_method originalUrl].
  rewrite (to_lower_public_mount first Hfirst rest).
  rewrite (serve_static_plain env (first :: rest) rest Hplain), Hfile.
  reflexivity.
Qed.

Lemma mount_ignores_case_witness :
  to_lower "PubLic" = "public"
  /\ serve example_env (request GET ["PubLic"; "js"; "main.js"])
     = SendFile ["public"; "js"; "main.js"] example_bundle.
Proof.
  split; [reflexivity|].
  exact (mount_ignores_case example_env "PubLic" ["js"; "main.js"] example_bundle
           eq_refl eq_refl eq_refl).
Defined.

End ExpressMore.

(** ** The client build and the server *)
Module WebpackFacts.
Import Express ExpressFacts Webpack.
Local Open Scope string_scope.
Local Open Scope list_scope.

Lemma client_output NODE_ENV :
  path (output (client_config NODE_ENV)) = ["public"; "js"]
  /\ publicPath (output (client_config NODE_ENV)) = ["public"; "js"; ""]
  /\ forall name, filename (output (client_config NODE_ENV)) name = (name ++ ".js")%string.
Proof.
  destruct NODE_ENV as [value|]; [|repeat split].
  unfold client_config. destruct (String.eqb value "production"); repeat split.
Qed.

Lemma client_html_plugin NODE_ENV file id :
  In (HtmlWebpackPlugin file id) (plugins (client_config NODE_ENV)) ->
  file = ["public"; "views"; "index.html"] /\ id = "app".
Proof.
  assert (H : forall l,
    In (HtmlWebpackPlugin file id)
       ([CommonsChunkPlugin "vendor"; CommonsChunkPlugin "manifest";
         ForkTsCheckerWebpackPlugin;
         HtmlWebpackPlugin ["public"; "views"; "index.html"] "app"] ++ l) ->
    (forall p, In p l -> p = UglifyJsPlugin) ->
    file = ["public"; "views"; "index.html"] /\ id = "app").
  { intros l Hin Hl. simpl in Hin.
    destruct Hin as [Hin|[Hin|[Hin|[Hin|Hin]]]]; try discriminate Hin.
    - injection Hin as <- <-. split; reflexivity.
    - specialize (Hl _ Hin). discriminate Hl. }
  destruct NODE_ENV as [value|]; unfold client_config;
    [destruct (String.eqb value "production")|]; cbn [plugins]; intro Hin.
  - apply (H [UglifyJsPlugin] Hin). intros p [<-|[]]. reflexivity.
  - apply (H []); [rewrite app_nil_r; exact Hin | intros p []].
  - apply (H []); [rewrite app_nil_r; exact Hin | intros p []].
Qed.

Lemma plain_segment_js name :
  plain_segment name = true -> plain_segment (name ++ ".js") = true.
Proof. destruct name as [|c rest]; [discriminate | exact (fun H => H)]. Qed.

(** X20: what the client build writes is what the server serves, in
    development and in production alike: a chunk written to the
    output path is sent at the public path the configuration gives it,
    and the page written by the HTML plugin is the view every GET
    outside [/public] renders. *)
Theorem build_outputs_served :
  forall (NODE_ENV : option string) (env : environment) (name : string) bundle,
    plain_segment name = true ->
    fs env (path (output (client_config NODE_ENV))
              ++ [filename (output (client_config NODE_ENV)) name]) = Some (File bundle) ->
    serve env (request GET
                 (asset_url (publicPath (output (client_config NODE_ENV)))
                            (filename (output (client_config NODE_ENV)) name)))
    = SendFile (path (output (client_config NODE_ENV))
                  ++ [filename (output (client_config NODE_ENV)) name]) bundle
    /\ forall file id template html url,
        In (HtmlWebpackPlugin file id) (plugins (client_config NODE_ENV)) ->
        fs env file = Some (File template) ->
        engine env template [] = Some html ->
        under_mount "/public" url = None ->
        serve env (request GET url) = Rendered "index" [] html.
Proof.
  intros NODE_ENV env name bundle Hname.
  destruct (client_output NODE_ENV) as (-> & -> & Hfile). rewrite Hfile.
  intro Hfs. split.
  - change (asset_url ["public"; "js"; ""] (name ++ ".js")%string)
      with ("public" :: ["js"; (name ++ ".js")%string]).
    rewrite serve_public.
    + change ("public" :: ["js"; (name ++ ".js")%string])
        with (["public"; "js"] ++ [(name ++ ".js")%string]).
      rewrite Hfs. reflexivity.
    + cbn [forallb]. rewrite (plain_segment_js name Hname). reflexivity.
  - intros file id template html url Hin Hview Hrender Hout.
    destruct (client_html_plugin NODE_ENV file id Hin) as [-> _].
    rewrite (serve_outside_public env GET url Hout).
    apply (render_index env template html Hview Hrender).
Qed.

Lemma build_outputs_served_witness :
  plain_segment "main" = true
  /\ serve example_env (request GET ["public"; "js"; "main.js"])
     = SendFile ["public"; "js"; "main.js"] example_bundle.
Proof.
  split; [reflexivity|].
  exact (proj1 (build_outputs_served (Some "production") example_env "main"
                  example_bundle eq_refl eq_refl)).
Defined.

End WebpackFacts.
